(** * OpenRouterNode: the n8n node of n8n-nodes-openrouter

    A shallow embedding of [nodes/OpenRouterNode/OpenRouterNode.node.ts]:
    the option loader [getModels] and the batch function [execute], over an
    explicit model of the host context they are bound to ([this]), and the
    properties of the two that the specification states. *)

From Stdlib Require Import Ascii String.
From Stdlib Require Import List NArith ZArith Bool Lia Sorted.
Import ListNotations.

#[local] Set Warnings "-register-all".

Local Open Scope list_scope.

(* ================================================================== *)
(** * JavaScript strings *)

(** A JavaScript string is a sequence of UTF-16 code units. *)
Definition jsstring := list N.

(** The string written by an ASCII literal of the source. *)
Definition lit (s : string) : jsstring :=
  map N_of_ascii (list_ascii_of_string s).

Arguments lit s%_string.

(** The double quote, U+0022, and the line feed, U+000A. *)
Definition dquote : jsstring := [34%N].
Definition LF : jsstring := [10%N].

(** [a === b] on two strings. *)
Fixpoint str_eqb (a b : jsstring) : bool :=
  match a, b with
  | [], [] => true
  | x :: a', y :: b' => N.eqb x y && str_eqb a' b'
  | _, _ => false
  end.

(** [s.startsWith(p)]. *)
Fixpoint starts_with (p s : jsstring) : bool :=
  match p, s with
  | [], _ => true
  | x :: p', y :: s' => N.eqb x y && starts_with p' s'
  | _ :: _, [] => false
  end.

(** [s.includes(p)]. *)
Fixpoint includes (s p : jsstring) : bool :=
  match s with
  | [] => starts_with p []
  | _ :: s' => starts_with p s || includes s' p
  end.

(** [s.toUpperCase()] on a text of ASCII: the letters [a] to [z] go to
    [A] to [Z]. *)
Definition toUpperCase (s : jsstring) : jsstring :=
  map (fun c => if (N.leb 97 c && N.leb c 122)%bool then (c - 32)%N else c) s.

(** WhiteSpace and LineTerminator of ECMAScript, what [trim] removes:
    TAB, VT, FF, SP, NBSP, ZWNBSP and the other space separators, then
    LF, CR, LS and PS. *)
Definition is_trim_space (c : N) : bool :=
  (N.eqb c 9 || N.eqb c 11 || N.eqb c 12 || N.eqb c 32 || N.eqb c 160
   || N.eqb c 65279 || N.eqb c 5760
   || (N.leb 8192 c && N.leb c 8202)
   || N.eqb c 8239 || N.eqb c 8287 || N.eqb c 12288
   || N.eqb c 10 || N.eqb c 13 || N.eqb c 8232 || N.eqb c 8233)%bool.

Fixpoint trim_start (s : jsstring) : jsstring :=
  match s with
  | [] => []
  | c :: s' => if is_trim_space c then trim_start s' else s
  end.

(** [s.trim()]. *)
Definition trim (s : jsstring) : jsstring :=
  rev (trim_start (rev (trim_start s))).

(** [s.split(sep)] for a string separator: the pieces between the
    occurrences of [sep], found left to right without overlap. [skip]
    counts the code units of a separator still to pass over, [cur] is the
    piece being read. *)
Fixpoint split_from (sep : jsstring) (skip : nat) (cur s : jsstring)
  : list jsstring :=
  match s with
  | [] => [cur]
  | c :: s' =>
      match skip with
      | S k => split_from sep k cur s'
      | O =>
          if starts_with sep s
          then cur :: split_from sep (length sep - 1) [] s'
          else split_from sep 0 (cur ++ [c]) s'
      end
  end.

Definition split (s sep : jsstring) : list jsstring :=
  match sep with
  | [] => map (fun c => [c]) s
  | _ :: _ => split_from sep 0 [] s
  end.

(** [s.replace(pattern, replacement)] for a string pattern and a
    replacement without [$]: the first occurrence only. *)
Fixpoint replace (s pattern replacement : jsstring) : jsstring :=
  match s with
  | [] => if starts_with pattern [] then replacement else []
  | c :: s' =>
      if starts_with pattern s
      then replacement ++ skipn (length pattern) s
      else c :: replace s' pattern replacement
  end.

(* ================================================================== *)
(** * JavaScript values *)

(** A number. An integer that a double holds exactly is carried as that
    integer; any other number is carried by the text that denotes it. *)
Inductive number : Type :=
| Int (z : Z)
| Dec (text : jsstring).

(** The values the node handles ([any], [IDataObject] and its fields). An
    object is the list of its own properties in the order the engine
    enumerates them, each key once. *)
Inductive jsvalue : Type :=
| JUndefined
| JNull
| JBool (b : bool)
| JNumber (n : number)
| JString (s : jsstring)
| JArray (elements : list jsvalue)
| JObject (properties : list (jsstring * jsvalue)).

(** An own property of a property list. *)
Fixpoint own_property (ps : list (jsstring * jsvalue)) (key : jsstring)
  : option jsvalue :=
  match ps with
  | [] => None
  | (k, v) :: ps' => if str_eqb k key then Some v else own_property ps' key
  end.

(** The value of a decimal digit string; [None] when a unit is no digit. *)
Fixpoint digits_value (acc : N) (s : jsstring) : option N :=
  match s with
  | [] => Some acc
  | c :: s' =>
      if (N.leb 48 c && N.leb c 57)%bool
      then digits_value (10 * acc + (c - 48)) s'
      else None
  end.

(** An array index: the canonical decimal text of an integer below
    2^32 - 1. An object enumerates such keys first, in ascending order. *)
Definition array_index (key : jsstring) : option N :=
  match key with
  | [] => None
  | [48%N] => Some 0%N
  | 48%N :: _ => None
  | _ =>
      if Nat.leb (length key) 10
      then match digits_value 0 key with
           | Some n => if N.ltb n 4294967295 then Some n else None
           | None => None
           end
      else None
  end.

(** Where a new array-index key goes: before the first key that is a
    larger index or no index at all. *)
Fixpoint insert_index (ps : list (jsstring * jsvalue)) (n : N)
    (key : jsstring) (v : jsvalue) : list (jsstring * jsvalue) :=
  match ps with
  | [] => [(key, v)]
  | (k, w) :: ps' =>
      match array_index k with
      | Some m =>
          if N.ltb m n then (k, w) :: insert_index ps' n key v
          else (key, v) :: ps
      | None => (key, v) :: ps
      end
  end.

Fixpoint overwrite (ps : list (jsstring * jsvalue)) (key : jsstring)
    (v : jsvalue) : list (jsstring * jsvalue) :=
  match ps with
  | [] => []
  | (k, w) :: ps' =>
      if str_eqb k key then (k, v) :: ps' else (k, w) :: overwrite ps' key v
  end.

(** [o[key] = v] on the properties of an ordinary object: an existing key
    keeps its place, a new one goes last (among the indices, for an index). *)
Definition set_property (ps : list (jsstring * jsvalue)) (key : jsstring)
    (v : jsvalue) : list (jsstring * jsvalue) :=
  match own_property ps key with
  | Some _ => overwrite ps key v
  | None =>
      match array_index key with
      | Some n => insert_index ps n key v
      | None => ps ++ [(key, v)]
      end
  end.

(** [o.key] on an [IDataObject], for a key that no prototype defines:
    the own property, [undefined] without one. *)
Definition field (o : list (jsstring * jsvalue)) (key : jsstring) : jsvalue :=
  match own_property o key with Some x => x | None => JUndefined end.

(** [v.key] on a value that is neither [undefined] nor [null], for a key
    that is no index, not [length] and defined by no prototype: the own
    property of an object, [undefined] on anything else. *)
Definition property (v : jsvalue) (key : jsstring) : jsvalue :=
  match v with
  | JObject ps => field ps key
  | _ => JUndefined
  end.


(* ================================================================== *)
(** * The JSON grammar

    The text grammar that [JSON.parse] accepts (ECMA-404): a value between
    optional white space, nothing after it. The recursion is on [fuel],
    which bounds the depth of the calls; a call chain is never longer than
    twice the text, so [JSON_text] gives it that much, and any larger fuel
    gives the same answer ([json_value_fuel] below). *)

Definition is_json_space (c : N) : bool :=
  (N.eqb c 32 || N.eqb c 9 || N.eqb c 10 || N.eqb c 13)%bool.

Definition is_digit (c : N) : bool := (N.leb 48 c && N.leb c 57)%bool.

Fixpoint skip_space (s : jsstring) : jsstring :=
  match s with
  | [] => []
  | c :: s' => if is_json_space c then skip_space s' else s
  end.

(** The longest prefix of digits, and what follows it. *)
Fixpoint span_digits (s : jsstring) : jsstring * jsstring :=
  match s with
  | [] => ([], [])
  | c :: s' =>
      if is_digit c
      then let (ds, r) := span_digits s' in (c :: ds, r)
      else ([], s)
  end.

Definition hex_value (c : N) : option N :=
  if is_digit c then Some (c - 48)%N
  else if (N.leb 97 c && N.leb c 102)%bool then Some (c - 87)%N
  else if (N.leb 65 c && N.leb c 70)%bool then Some (c - 55)%N
  else None.

Definition hex4 (a b c d : N) : option N :=
  match hex_value a, hex_value b, hex_value c, hex_value d with
  | Some x, Some y, Some z, Some w => Some (4096 * x + 256 * y + 16 * z + w)%N
  | _, _, _, _ => None
  end.

(** The code unit of a one-letter escape: quote, backslash, slash, [b],
    [f], [n], [r], [t]. *)
Definition escape (e : N) : option N :=
  if N.eqb e 34 then Some 34%N
  else if N.eqb e 92 then Some 92%N
  else if N.eqb e 47 then Some 47%N
  else if N.eqb e 98 then Some 8%N
  else if N.eqb e 102 then Some 12%N
  else if N.eqb e 110 then Some 10%N
  else if N.eqb e 114 then Some 13%N
  else if N.eqb e 116 then Some 9%N
  else None.

Definition cons_unit (c : N) (r : option (jsstring * jsstring))
  : option (jsstring * jsstring) :=
  match r with
  | Some (cs, r') => Some (c :: cs, r')
  | None => None
  end.

(** The characters of a string after its opening quote, up to the closing
    one: no control character, a backslash only in an escape. *)
Fixpoint string_body (s : jsstring) : option (jsstring * jsstring) :=
  match s with
  | [] => None
  | c :: r =>
      if N.eqb c 34 then Some ([], r)
      else if N.eqb c 92 then
        match r with
        | [] => None
        | e :: r1 =>
            if N.eqb e 117 then
              match r1 with
              | h1 :: h2 :: h3 :: h4 :: r2 =>
                  match hex4 h1 h2 h3 h4 with
                  | Some u => cons_unit u (string_body r2)
                  | None => None
                  end
              | _ => None
              end
            else
              match escape e with
              | Some u => cons_unit u (string_body r1)
              | None => None
              end
        end
      else if N.ltb c 32 then None
      else cons_unit c (string_body r)
  end.

(** An optional part of a number token: its text and what follows, or
    [None] when the part is begun and not finished. *)
Definition fraction (s : jsstring) : option (jsstring * jsstring) :=
  match s with
  | c :: r =>
      if N.eqb c 46 then
        let (ds, r') := span_digits r in
        match ds with
        | [] => None
        | _ :: _ => Some (c :: ds, r')
        end
      else Some ([], s)
  | [] => Some ([], s)
  end.

Definition exponent (s : jsstring) : option (jsstring * jsstring) :=
  match s with
  | e :: r =>
      if (N.eqb e 101 || N.eqb e 69)%bool then
        let (sign, r1) :=
          match r with
          | g :: r0 =>
              if (N.eqb g 43 || N.eqb g 45)%bool then ([g], r0) else ([], r)
          | [] => ([], r)
          end in
        let (ds, r2) := span_digits r1 in
        match ds with
        | [] => None
        | _ :: _ => Some (e :: sign ++ ds, r2)
        end
      else Some ([], s)
  | [] => Some ([], s)
  end.

(** A number token: [-]? int frac? exp?, no leading zero. *)
Definition number_token (s : jsstring) : option (number * jsstring) :=
  let (negative, s1) :=
    match s with
    | c :: r => if N.eqb c 45 then (true, r) else (false, s)
    | [] => (false, s)
    end in
  let (int, s2) := span_digits s1 in
  match int with
  | [] => None
  | d :: more =>
      if (N.eqb d 48 && negb (Nat.eqb (length more) 0))%bool then None
      else
        match fraction s2 with
        | None => None
        | Some (ftext, s3) =>
            match exponent s3 with
            | None => None
            | Some (etext, rest) =>
                let text :=
                  (if negative then [45%N] else []) ++ int ++ ftext ++ etext in
                let n :=
                  match ftext, etext, digits_value 0 int with
                  | [], [], Some m =>
                      if (N.leb m 9007199254740992
                          && negb (negative && N.eqb m 0))%bool
                      then Int (if negative then - Z.of_N m else Z.of_N m)
                      else Dec text
                  | _, _, _ => Dec text
                  end in
                Some (n, rest)
            end
        end
  end.

(** The rest of the text after the word [w], when the text starts with
    it. *)
Definition after_word (w s : jsstring) : option jsstring :=
  if starts_with w s then Some (skipn (length w) s) else None.

Fixpoint json_value (fuel : nat) (s : jsstring) {struct fuel}
  : option (jsvalue * jsstring) :=
  match fuel with
  | O => None
  | S f =>
      match skip_space s with
      | [] => None
      | c :: r =>
          if N.eqb c 123 then
            match skip_space r with
            | [] => None
            | c' :: r' =>
                if N.eqb c' 125 then Some (JObject [], r')
                else json_members f [] r
            end
          else if N.eqb c 91 then
            match skip_space r with
            | [] => None
            | c' :: r' =>
                if N.eqb c' 93 then Some (JArray [], r')
                else json_elements f [] r
            end
          else if N.eqb c 34 then
            match string_body r with
            | Some (cs, r') => Some (JString cs, r')
            | None => None
            end
          else
            match after_word (lit "true") (c :: r),
                  after_word (lit "false") (c :: r),
                  after_word (lit "null") (c :: r) with
            | Some r', _, _ => Some (JBool true, r')
            | None, Some r', _ => Some (JBool false, r')
            | None, None, Some r' => Some (JNull, r')
            | None, None, None =>
                match number_token (c :: r) with
                | Some (n, r') => Some (JNumber n, r')
                | None => None
                end
            end
      end
  end

with json_elements (fuel : nat) (acc : list jsvalue) (s : jsstring)
    {struct fuel} : option (jsvalue * jsstring) :=
  match fuel with
  | O => None
  | S f =>
      match json_value f s with
      | Some (v, r) =>
          match skip_space r with
          | [] => None
          | c :: r' =>
              if N.eqb c 44 then json_elements f (acc ++ [v]) r'
              else if N.eqb c 93 then Some (JArray (acc ++ [v]), r')
              else None
          end
      | None => None
      end
  end

with json_members (fuel : nat) (acc : list (jsstring * jsvalue))
    (s : jsstring) {struct fuel} : option (jsvalue * jsstring) :=
  match fuel with
  | O => None
  | S f =>
      match skip_space s with
      | [] => None
      | q :: r =>
          if N.eqb q 34 then
            match string_body r with
            | Some (key, r1) =>
                match skip_space r1 with
                | [] => None
                | c :: r2 =>
                    if N.eqb c 58 then
                      match json_value f r2 with
                      | Some (v, r3) =>
                          match skip_space r3 with
                          | [] => None
                          | c' :: r4 =>
                              if N.eqb c' 44
                              then json_members f (set_property acc key v) r4
                              else if N.eqb c' 125
                              then Some (JObject (set_property acc key v), r4)
                              else None
                          end
                      | None => None
                      end
                    else None
                end
            | None => None
            end
          else None
      end
  end.

(** The value a JSON text denotes, [None] when it is no JSON text. *)
Definition JSON_text (s : jsstring) : option jsvalue :=
  match json_value (2 * length s + 2) s with
  | Some (v, r) => match skip_space r with [] => Some v | _ => None end
  | None => None
  end.

(* ================================================================== *)
(** * Failures, records and the host context *)

(** [INode], what [this.getNode()] returns: the node an error is filed
    under. *)
Record INode : Type := { node_name : jsstring }.

(** The classes of [Error] that occur: the node's own
    [NodeOperationError], the engine's [SyntaxError] and [TypeError], and
    any other [Error] the host raises (a rejected request, a parameter that
    cannot be resolved). *)
Inductive error_class : Type :=
| NodeOperationErrorClass (node : INode)
| SyntaxError
| TypeError
| OtherError.

(** What a [throw] carries: an instance of [Error] with its [message], or
    a value that is no [Error]. *)
Inductive thrown : Type :=
| Error (class : error_class) (message : jsstring)
| NotAnError (v : jsvalue).

(** The faults of the engine itself; the text of their message is the
    engine's choice. *)
Inductive fault : Type :=
| BadJSON (text : jsstring)
| BadMember (v : jsvalue) (key : jsstring).

(** The credentials of type [openRouterApi]. *)
Record ICredentials : Type := { apiKey : jsstring }.

(** [IDataObject] as a parameter value: the properties of the object. *)
Definition IDataObject := list (jsstring * jsvalue).

(** [INodeExecutionData]: [json] and the optional [pairedItem.item]. *)
Record INodeExecutionData : Type :=
  { json : jsvalue; pairedItem : option nat }.

(** [INodePropertyOptions]. *)
Record INodePropertyOptions : Type :=
  { name : jsvalue; value : jsvalue; description : jsvalue }.

(** The calls on the host that the log keeps, in the order made: the
    reads of credentials, the reads of parameters and the requests. The
    calls of [getInputData], [getNode] and [continueOnFail] are not
    entered. *)
Inductive event : Type :=
| CredentialsRead (type : jsstring)
| ParameterRead (parameter : jsstring) (itemIndex : nat)
| Requested (options : jsvalue).

(** The host context ([IExecuteFunctions], [ILoadOptionsFunctions]): what
    each call on [this] answers. [getNodeParameter] is given at the types
    the source asserts for its results; a parameter of objects may be
    unset, and then the caller's fallback is the answer. The answer to a
    request may depend on all the calls made before it.

    With it goes the one thing the node takes from the library
    n8n-workflow, which is no part of the source: the message that the
    constructor of [NodeOperationError] leaves on an error made from a
    given text, [descriptive_message]. The library keeps a table of
    common error codes ([ECONNREFUSED], [ENOENT], ...): a text that holds
    one is replaced by the fixed text of that code, the text as given
    being moved to the [messages] of the error. *)
Record Host : Type := {
  getNode : INode;
  getInputData : list INodeExecutionData;
  credentials_of : jsstring -> thrown + ICredentials;
  string_parameter : jsstring -> nat -> thrown + jsstring;
  number_parameter : jsstring -> nat -> thrown + number;
  boolean_parameter : jsstring -> nat -> thrown + bool;
  objects_parameter : jsstring -> nat -> option (thrown + list IDataObject);
  response_to : list event -> jsvalue -> thrown + jsvalue;
  continueOnFail : bool;
  engine_message : fault -> jsstring;
  descriptive_message : jsstring -> jsstring
}.

(* ================================================================== *)
(** * Computations on the host

    A computation reads and extends the log of host calls and either
    returns or throws. *)

Definition M (A : Type) : Type := list event -> (thrown + A) * list event.

Definition ret {A} (a : A) : M A := fun log => (inr a, log).

Definition throw {A} (e : thrown) : M A := fun log => (inl e, log).

Definition bind {A B} (m : M A) (k : A -> M B) : M B :=
  fun log =>
    match m log with
    | (inr a, log') => k a log'
    | (inl e, log') => (inl e, log')
    end.

(** [try { m } catch (error) { handler }]. *)
Definition try_catch {A} (m : M A) (handler : thrown -> M A) : M A :=
  fun log =>
    match m log with
    | (inr a, log') => (inr a, log')
    | (inl e, log') => handler e log'
    end.

Declare Scope host_scope.
Delimit Scope host_scope with host.
Notation "x <- m ;; k" := (bind m (fun x => k))
  (at level 61, m at next level, right associativity) : host_scope.
Local Open Scope host_scope.

(** [xs.map(f)] for a callback that may throw: left to right, up to the
    first throw. *)
Fixpoint mapM {A B} (f : A -> M B) (xs : list A) : M (list B) :=
  match xs with
  | [] => ret []
  | x :: xs' => y <- f x ;; ys <- mapM f xs' ;; ret (y :: ys)
  end.

Section Node.

Variable this : Host.

(** ** The calls on [this]

    Each call is entered in the log, whether it returns or throws. *)

(** [await this.getCredentials(type)]. *)
Definition getCredentials (type : jsstring) : M ICredentials :=
  fun log => (credentials_of this type, log ++ [CredentialsRead type]).

(** [this.getNodeParameter(parameter, i)], read [as string], [as number],
    [as boolean], and, with a fallback, [as IDataObject[]]. *)
Definition getNodeParameter_string (parameter : jsstring) (i : nat)
  : M jsstring :=
  fun log => (string_parameter this parameter i,
              log ++ [ParameterRead parameter i]).

Definition getNodeParameter_number (parameter : jsstring) (i : nat)
  : M number :=
  fun log => (number_parameter this parameter i,
              log ++ [ParameterRead parameter i]).

Definition getNodeParameter_boolean (parameter : jsstring) (i : nat)
  : M bool :=
  fun log => (boolean_parameter this parameter i,
              log ++ [ParameterRead parameter i]).

Definition getNodeParameter_objects (parameter : jsstring) (i : nat)
    (fallback : list IDataObject) : M (list IDataObject) :=
  fun log => (match objects_parameter this parameter i with
              | Some r => r
              | None => inr fallback
              end,
              log ++ [ParameterRead parameter i]).

(** [this.helpers.request(options)]. *)
Definition helpers_request (options : jsvalue) : M jsvalue :=
  fun log => (response_to this log options, log ++ [Requested options]).

(** ** The library *)

(** [new NodeOperationError(node, message)]: an [Error] of that class
    whose message is what the library makes of [message]. *)
Definition NodeOperationError (node : INode) (message : jsstring) : thrown :=
  Error (NodeOperationErrorClass node) (descriptive_message this message).

(** ** The engine *)

(** [JSON.parse(text)]. *)
Definition JSON_parse (text : jsstring) : M jsvalue :=
  match JSON_text text with
  | Some v => ret v
  | None => throw (Error SyntaxError (engine_message this (BadJSON text)))
  end.

(** [v.key] on a value of unknown shape, for a key that no prototype
    defines: a [TypeError] on [undefined] and [null], the own property
    of an object, [undefined] otherwise. *)
Definition member (v : jsvalue) (key : jsstring) : M jsvalue :=
  match v with
  | JUndefined | JNull =>
      throw (Error TypeError (engine_message this (BadMember v key)))
  | _ => ret (property v key)
  end.

(** ** [methods.loadOptions.getModels], lines 179-225

    Lines 183-192 are [models_requestOptions]. The [console] calls only
    report; they are left out. In the test of
    line 199 an array is truthy, so [!models || !Array.isArray(models)]
    is [!Array.isArray(models)]. *)
Definition models_requestOptions (apiKey : jsstring) : jsvalue :=
  JObject
    [ (lit "method", JString (lit "GET"));
      (lit "url", JString (lit "https://openrouter.ai/api/v1/models"));
      (lit "headers",
        JObject
          [ (lit "Authorization", JString (lit "Bearer " ++ apiKey));
            (lit "HTTP-Referer", JString (lit "https://n8n.io"));
            (lit "X-Title", JString (lit "n8n OpenRouter Node")) ]);
      (lit "json", JBool true) ].

(** Lines 206-210: the callback of [map] over the models. *)
Definition option_of_model (model : jsvalue) : M INodePropertyOptions :=
  id <- member model (lit "id") ;;
  text <- member model (lit "description") ;;
  ret {| name := id; value := id; description := text |}.

Definition getModels : M (list INodePropertyOptions) :=
  credentials <- getCredentials (lit "openRouterApi") ;;
  let apiKey := apiKey credentials in
  let requestOptions := models_requestOptions apiKey in
  try_catch
    (response <- helpers_request requestOptions ;;
     models <- member response (lit "data") ;;
     match models with
     | JArray elements => mapM option_of_model elements
     | _ =>
         throw (NodeOperationError (getNode this)
                  (lit "Invalid response format from OpenRouter API"))
     end)
    (fun error =>
       match error with
       | Error _ message =>
           throw (NodeOperationError (getNode this)
                    (lit "Failed to load models from OpenRouter API: "
                     ++ message))
       | NotAnError _ =>
           throw (NodeOperationError (getNode this)
                    (lit "Failed to load models from OpenRouter API: Unknown error"))
       end).

(** ** [execute], lines 229-322 *)

(** Lines 244-247: the callback of [map] over the configured messages. *)
Definition role_and_content (message : IDataObject) : jsvalue :=
  JObject [ (lit "role", field message (lit "role"));
            (lit "content", field message (lit "content")) ].

(** Lines 289-291: the chunks of a streamed response. *)
Definition chunks (response : jsstring) : list jsstring :=
  filter (fun chunk => negb (str_eqb (trim chunk) []))
         (split response (LF ++ LF)).

(** Lines 292-295: the callback of [map] over the chunks. *)
Definition parse_chunk (chunk : jsstring) : M jsvalue :=
  let jsonStr := replace chunk (lit "data: ") [] in
  JSON_parse jsonStr.

(** Lines 260-269: the request payload. *)
Definition body (model : jsstring) (messagesInput : list jsvalue)
    (max_tokens temperature top_p frequency_penalty presence_penalty : number)
    (stream : bool) : jsvalue :=
  JObject
    [ (lit "model", JString model);
      (lit "messages", JArray messagesInput);
      (lit "max_tokens", JNumber max_tokens);
      (lit "temperature", JNumber temperature);
      (lit "top_p", JNumber top_p);
      (lit "frequency_penalty", JNumber frequency_penalty);
      (lit "presence_penalty", JNumber presence_penalty);
      (lit "stream", JBool stream) ].

(** Lines 271-282: the options of the request, as first built. *)
Definition requestOptions (apiKey : jsstring) (body : jsvalue) : IDataObject :=
  [ (lit "method", JString (lit "POST"));
    (lit "url", JString (lit "https://openrouter.ai/api/v1/chat/completions"));
    (lit "headers",
      JObject
        [ (lit "Authorization", JString (lit "Bearer " ++ apiKey));
          (lit "Content-Type", JString (lit "application/json"));
          (lit "HTTP-Referer", JString (lit "https://n8n.io"));
          (lit "X-Title", JString (lit "n8n OpenRouter Node")) ]);
    (lit "body", body);
    (lit "json", JBool true) ].

(** Lines 285-286: the two assignments of the streaming branch. *)
Definition as_stream (requestOptions : IDataObject) : IDataObject :=
  let requestOptions :=
    set_property requestOptions (lit "encoding") (JString (lit "utf8")) in
  set_property requestOptions (lit "json") (JBool false).

(** Lines 289-296 once the response is there: [split] is a method of
    strings only. *)
Definition streamed (response : jsvalue) : M INodeExecutionData :=
  match response with
  | JString text =>
      parsedChunks <- mapM parse_chunk (chunks text) ;;
      ret {| json := JObject [ (lit "streamedResponse", JArray parsedChunks) ];
             pairedItem := None |}
  | _ =>
      throw (Error TypeError
               (engine_message this (BadMember response (lit "split"))))
  end.

(** Lines 238-306: the body of the [try] for item [i]. *)
Definition try_item (apiKey : jsstring) (i : nat) : M INodeExecutionData :=
  operation <- getNodeParameter_string (lit "operation") i ;;
  model <- getNodeParameter_string (lit "model") i ;;
  messagesValues <-
    getNodeParameter_objects (lit "messages.messagesValues") i [] ;;
  let messagesInput := map role_and_content messagesValues in
  max_tokens <- getNodeParameter_number (lit "max_tokens") i ;;
  temperature <- getNodeParameter_number (lit "temperature") i ;;
  top_p <- getNodeParameter_number (lit "top_p") i ;;
  frequency_penalty <- getNodeParameter_number (lit "frequency_penalty") i ;;
  presence_penalty <- getNodeParameter_number (lit "presence_penalty") i ;;
  stream <- getNodeParameter_boolean (lit "stream") i ;;
  if str_eqb operation (lit "chatCompletion") then
    if Nat.eqb (length messagesInput) 0 then
      throw (NodeOperationError (getNode this)
               (lit "At least one message is required"))
    else
      let body :=
        body model messagesInput max_tokens temperature top_p
             frequency_penalty presence_penalty stream in
      let requestOptions := requestOptions apiKey body in
      if stream then
        response <- helpers_request (JObject (as_stream requestOptions)) ;;
        streamed response
      else
        response <- helpers_request (JObject requestOptions) ;;
        ret {| json := response; pairedItem := None |}
  else
    throw (NodeOperationError (getNode this)
             (lit "The operation " ++ dquote ++ operation ++ dquote
              ++ lit " is not supported")).

(** Lines 309-314: the record pushed for a failed item. *)
Definition error_item (error : thrown) (i : nat) : INodeExecutionData :=
  {| json := JObject
               [ (lit "error",
                   JString match error with
                           | Error _ message => message
                           | NotAnError _ => lit "Unknown error occurred"
                           end) ];
     pairedItem := Some i |}.

(** Lines 236-319: the loop, with [remaining] iterations to go from
    index [i] on, that is [items.length - i]. *)
Fixpoint for_items (apiKey : jsstring) (remaining i : nat)
    (returnData : list INodeExecutionData) : M (list INodeExecutionData) :=
  match remaining with
  | O => ret returnData
  | S remaining' =>
      fun log =>
        match try_item apiKey i log with
        | (inr item, log') =>
            for_items apiKey remaining' (S i) (returnData ++ [item]) log'
        | (inl error, log') =>
            if continueOnFail this
            then for_items apiKey remaining' (S i)
                   (returnData ++ [error_item error i]) log'
            else (inl error, log')
        end
  end.

Definition execute : M (list (list INodeExecutionData)) :=
  let items := getInputData this in
  credentials <- getCredentials (lit "openRouterApi") ;;
  let apiKey := apiKey credentials in
  returnData <- for_items apiKey (length items) 0 [] ;;
  ret [returnData].

End Node.

(* ================================================================== *)
(** * Vocabulary of the statements *)

(** The nine parameter reads of item [i], in the order of lines 238-253. *)
Definition parameter_reads (i : nat) : list event :=
  [ ParameterRead (lit "operation") i;
    ParameterRead (lit "model") i;
    ParameterRead (lit "messages.messagesValues") i;
    ParameterRead (lit "max_tokens") i;
    ParameterRead (lit "temperature") i;
    ParameterRead (lit "top_p") i;
    ParameterRead (lit "frequency_penalty") i;
    ParameterRead (lit "presence_penalty") i;
    ParameterRead (lit "stream") i ].

Definition is_credentials_read (e : event) : bool :=
  match e with CredentialsRead _ => true | _ => false end.

Definition is_request (e : event) : bool :=
  match e with Requested _ => true | _ => false end.

(** An event of the processing of item [i]: a read of one of its
    parameters, or a request. *)
Definition of_item (i : nat) (e : event) : Prop :=
  match e with
  | ParameterRead _ j => j = i
  | Requested _ => True
  | CredentialsRead _ => False
  end.

(** A computation that calls the host for item [i] only. *)
Definition stays_with {A} (i : nat) (m : M A) : Prop :=
  forall log, exists events,
    snd (m log) = log ++ events /\ Forall (of_item i) events.

(** What the host has configured for an item. *)
Record configuration : Type := {
  c_operation : jsstring;
  c_model : jsstring;
  c_messages : list IDataObject;
  c_max_tokens : number;
  c_temperature : number;
  c_top_p : number;
  c_frequency_penalty : number;
  c_presence_penalty : number;
  c_stream : bool
}.

(** Every parameter of item [i] can be read, and reads as [c]; an unset
    message list reads as the empty one. *)
Definition configured (this : Host) (i : nat) (c : configuration) : Prop :=
  string_parameter this (lit "operation") i = inr (c_operation c)
  /\ string_parameter this (lit "model") i = inr (c_model c)
  /\ match objects_parameter this (lit "messages.messagesValues") i with
     | Some r => r
     | None => inr []
     end = inr (c_messages c)
  /\ number_parameter this (lit "max_tokens") i = inr (c_max_tokens c)
  /\ number_parameter this (lit "temperature") i = inr (c_temperature c)
  /\ number_parameter this (lit "top_p") i = inr (c_top_p c)
  /\ number_parameter this (lit "frequency_penalty") i
     = inr (c_frequency_penalty c)
  /\ number_parameter this (lit "presence_penalty") i
     = inr (c_presence_penalty c)
  /\ boolean_parameter this (lit "stream") i = inr (c_stream c).

(** The payload of lines 260-269 for a configuration. *)
Definition payload (c : configuration) : jsvalue :=
  body (c_model c) (map role_and_content (c_messages c)) (c_max_tokens c)
       (c_temperature c) (c_top_p c) (c_frequency_penalty c)
       (c_presence_penalty c) (c_stream c).

(** The options of the one request of an item. *)
Definition options_sent (apiKey : jsstring) (c : configuration) : jsvalue :=
  JObject (if c_stream c
           then as_stream (requestOptions apiKey (payload c))
           else requestOptions apiKey (payload c)).

(** The log when the loop reaches item [k], having started on [log0]. *)
Fixpoint log_before (this : Host) (apiKey : jsstring) (log0 : list event)
    (k : nat) : list event :=
  match k with
  | O => log0
  | S j => snd (try_item this apiKey j (log_before this apiKey log0 j))
  end.

(** How the processing of item [k] ends in the batch: with a record or
    with a failure. *)
Definition outcome (this : Host) (apiKey : jsstring) (log0 : list event)
    (k : nat) : thrown + INodeExecutionData :=
  fst (try_item this apiKey k (log_before this apiKey log0 k)).

(** The record of item [k] under continue-on-fail. *)
Definition settled (k : nat) (r : thrown + INodeExecutionData)
  : INodeExecutionData :=
  match r with
  | inr item => item
  | inl error => error_item error k
  end.

(** The keys of an object, in order. *)
Definition keys (v : jsvalue) : list jsstring :=
  match v with
  | JObject ps => map fst ps
  | _ => []
  end.

(** A chunk that [trim] does not empty: one with a code unit that is no
    white space. *)
Definition has_text (chunk : jsstring) : bool :=
  existsb (fun u => negb (is_trim_space u)) chunk.

(** The text left of a chunk once the first [data: ] is out. *)
Definition residual (chunk : jsstring) : jsstring :=
  replace chunk (lit "data: ") [].

(** [pieces.join(sep)]. *)
Fixpoint join (pieces : list jsstring) (sep : jsstring) : jsstring :=
  match pieces with
  | [] => []
  | [p] => p
  | p :: ps => p ++ sep ++ join ps sep
  end.

(** Neither [undefined] nor [null]: a value whose members can be read. *)
Definition readable (v : jsvalue) : Prop :=
  v <> JUndefined /\ v <> JNull.

(* ================================================================== *)
(** * Sample hosts *)

Module Sample.

Definition node : INode := {| node_name := lit "OpenRouter" |}.

(** What the constructor of the library does to the messages of these
    samples. Of the common error codes of its table they hold
    [ECONNREFUSED] and [ENOENT] at most: a message that holds one, letter
    case aside, is replaced by the text that the table has for the code,
    the first of the table first; any other message is kept. *)
Definition descriptive (message : jsstring) : jsstring :=
  if includes (toUpperCase message) (lit "ECONNREFUSED")
  then lit "The service refused the connection - perhaps it is offline"
  else if includes (toUpperCase message) (lit "ENOENT")
  then lit "The file or directory does not exist"
  else message.

Definition unknown_parameter {A} : thrown + A :=
  inl (Error OtherError (lit "Could not get parameter")).

Definition hello : IDataObject :=
  [ (lit "role", JString (lit "user"));
    (lit "content", JString (lit "hello"));
    (lit "name", JString (lit "ann")) ].

Definition empty_item : INodeExecutionData :=
  {| json := JObject []; pairedItem := None |}.

(** A host of [n] items, all with the operation [operation], whose
    request is answered by [answer]. Item [i] asks for the model [m]
    followed by the digit of [i]; the items listed in [unset] have no
    message list, the others have [hello]. *)
Definition host_of (operation : jsstring) (n : nat) (unset : list nat)
    (streaming continue : bool)
    (answer : list event -> jsvalue -> thrown + jsvalue) : Host :=
  {| getNode := node;
     getInputData := repeat empty_item n;
     credentials_of := fun type =>
       if str_eqb type (lit "openRouterApi")
       then inr {| apiKey := lit "sk-1" |}
       else inl (Error OtherError (lit "No credentials"));
     string_parameter := fun p i =>
       if str_eqb p (lit "operation") then inr operation
       else if str_eqb p (lit "model")
            then inr (lit "m" ++ [N.of_nat (48 + i)])
            else unknown_parameter;
     number_parameter := fun p i =>
       if str_eqb p (lit "max_tokens") then inr (Int 16)
       else if str_eqb p (lit "temperature") then inr (Int 1)
       else if str_eqb p (lit "top_p") then inr (Int 1)
       else if str_eqb p (lit "frequency_penalty") then inr (Int 0)
       else if str_eqb p (lit "presence_penalty") then inr (Int 0)
       else unknown_parameter;
     boolean_parameter := fun p i =>
       if str_eqb p (lit "stream") then inr streaming else unknown_parameter;
     objects_parameter := fun p i =>
       if str_eqb p (lit "messages.messagesValues")
       then if existsb (Nat.eqb i) unset then None else Some (inr [hello])
       else Some unknown_parameter;
     response_to := answer;
     continueOnFail := continue;
     engine_message := fun f =>
       match f with
       | BadJSON _ => lit "Unexpected token"
       | BadMember _ _ => lit "Cannot read properties"
       end;
     descriptive_message := descriptive |}.

Definition host := host_of (lit "chatCompletion").

(** The answer that names the model asked for. *)
Definition echo (log : list event) (options : jsvalue)
  : thrown + jsvalue :=
  inr (JObject [ (lit "model",
                   property (property options (lit "body")) (lit "model")) ]).

(** The streamed body of the specification:
    two frames [data: {"a":1}] and [data: {"a":2}], a blank line after
    each. *)
Definition two_frames : jsstring :=
  lit "data: {" ++ dquote ++ lit "a" ++ dquote ++ lit ":1}" ++ LF ++ LF
  ++ lit "data: {" ++ dquote ++ lit "a" ++ dquote ++ lit ":2}" ++ LF ++ LF.

(** The same with the sentinel frame [data: [DONE]] at its end. *)
Definition frames_and_done : jsstring :=
  two_frames ++ lit "data: [DONE]" ++ LF ++ LF.

(** The model list [{"data":[{"id":"m1","description":"d1"}]}]. *)
Definition one_model : jsvalue :=
  JObject
    [ (lit "data",
        JArray [ JObject [ (lit "id", JString (lit "m1"));
                           (lit "description", JString (lit "d1")) ] ]) ].

(** The record of an item that [echo] answered. *)
Definition success (i : nat) : INodeExecutionData :=
  {| json := JObject [ (lit "model", JString (lit "m" ++ [N.of_nat (48 + i)])) ];
     pairedItem := None |}.

(** The failure of an item without messages. *)
Definition no_message : thrown :=
  Error (NodeOperationErrorClass node)
        (lit "At least one message is required").

(** Three items, the second without messages. *)
Definition three (continue : bool) : Host :=
  host 3 [1] false continue echo.

Definition credentials : ICredentials := {| apiKey := lit "sk-1" |}.

Definition configuration_for (operation : jsstring) (i : nat)
    (messages : list IDataObject) (streaming : bool) : configuration :=
  {| c_operation := operation;
     c_model := lit "m" ++ [N.of_nat (48 + i)];
     c_messages := messages;
     c_max_tokens := Int 16;
     c_temperature := Int 1;
     c_top_p := Int 1;
     c_frequency_penalty := Int 0;
     c_presence_penalty := Int 0;
     c_stream := streaming |}.

Definition configuration_of := configuration_for (lit "chatCompletion").

(** One item whose operation is [embeddings]. *)
Definition embeddings : Host :=
  host_of (lit "embeddings") 1 [] false false echo.


(** One streaming item, answered by the text [body]. *)
Definition streaming (body : jsstring) : Host :=
  host 1 [] true false (fun _ _ => inr (JString body)).

(** A host whose request for the models is answered by [r]. *)
Definition listing (r : thrown + jsvalue) : Host :=
  host 0 [] false false (fun _ _ => r).

End Sample.

(* ================================================================== *)
(** * The description of the node, lines 13-175 *)

Module Schema.

(** [description], written out as the value it is. *)
Definition description : jsvalue :=
  JObject
    [
      (lit "displayName", JString (lit "OpenRouter"));
      (lit "name", JString (lit "openRouterNode"));
      (lit "icon", JString (lit "file:openrouter.svg"));
      (lit "group",
        JArray
          [
            JString (lit "transform") ]);
      (lit "version", JNumber (Int 1));
      (lit "subtitle", JString (lit "={{$parameter[" ++ dquote ++ lit "operation" ++ dquote ++ lit "]}}"));
      (lit "description", JString (lit "Interact with OpenRouter API"));
      (lit "defaults",
        JObject
          [
            (lit "name", JString (lit "OpenRouter")) ]);
      (lit "inputs", JString (lit "={{[" ++ dquote ++ lit "main" ++ dquote ++ lit "]}}"));
      (lit "outputs", JString (lit "={{[" ++ dquote ++ lit "main" ++ dquote ++ lit "]}}"));
      (lit "credentials",
        JArray
          [
            JObject
              [
                (lit "name", JString (lit "openRouterApi"));
                (lit "required", JBool true) ] ]);
      (lit "properties",
        JArray
          [
            JObject
              [
                (lit "displayName", JString (lit "Operation"));
                (lit "name", JString (lit "operation"));
                (lit "type", JString (lit "options"));
                (lit "noDataExpression", JBool true);
                (lit "options",
                  JArray
                    [
                      JObject
                        [
                          (lit "name", JString (lit "Chat Completion"));
                          (lit "value", JString (lit "chatCompletion"));
                          (lit "description", JString (lit "Create a chat completion"));
                          (lit "action", JString (lit "Create a chat completion")) ] ]);
                (lit "default", JString (lit "chatCompletion")) ];
            JObject
              [
                (lit "displayName", JString (lit "Model Name or ID"));
                (lit "name", JString (lit "model"));
                (lit "type", JString (lit "options"));
                (lit "typeOptions",
                  JObject
                    [
                      (lit "loadOptionsMethod", JString (lit "getModels")) ]);
                (lit "description", JString (lit "Choose from the list, or specify an ID using an <a href=" ++ dquote ++ lit "https://docs.n8n.io/code/expressions/" ++ dquote ++ lit ">expression</a>"));
                (lit "default", JString (lit ""));
                (lit "required", JBool true) ];
            JObject
              [
                (lit "displayName", JString (lit "Messages"));
                (lit "name", JString (lit "messages"));
                (lit "type", JString (lit "fixedCollection"));
                (lit "typeOptions",
                  JObject
                    [
                      (lit "multipleValues", JBool true) ]);
                (lit "default",
                  JObject
                    [
                      (lit "messagesValues",
                        JArray
                          [
                            JObject
                              [
                                (lit "role", JString (lit "user"));
                                (lit "content", JString (lit "")) ] ]) ]);
                (lit "options",
                  JArray
                    [
                      JObject
                        [
                          (lit "name", JString (lit "messagesValues"));
                          (lit "displayName", JString (lit "Message"));
                          (lit "values",
                            JArray
                              [
                                JObject
                                  [
                                    (lit "displayName", JString (lit "Role"));
                                    (lit "name", JString (lit "role"));
                                    (lit "type", JString (lit "options"));
                                    (lit "options",
                                      JArray
                                        [
                                          JObject
                                            [
                                              (lit "name", JString (lit "System"));
                                              (lit "value", JString (lit "system")) ];
                                          JObject
                                            [
                                              (lit "name", JString (lit "User"));
                                              (lit "value", JString (lit "user")) ];
                                          JObject
                                            [
                                              (lit "name", JString (lit "Assistant"));
                                              (lit "value", JString (lit "assistant")) ] ]);
                                    (lit "default", JString (lit "user")) ];
                                JObject
                                  [
                                    (lit "displayName", JString (lit "Content"));
                                    (lit "name", JString (lit "content"));
                                    (lit "type", JString (lit "string"));
                                    (lit "default", JString (lit ""));
                                    (lit "description", JString (lit "The content of the message")) ] ]) ] ]) ];
            JObject
              [
                (lit "displayName", JString (lit "Max Tokens"));
                (lit "name", JString (lit "max_tokens"));
                (lit "type", JString (lit "number"));
                (lit "typeOptions",
                  JObject
                    [
                      (lit "minValue", JNumber (Int 1)) ]);
                (lit "default", JNumber (Int 16));
                (lit "description", JString (lit "The maximum number of tokens to generate in the completion")) ];
            JObject
              [
                (lit "displayName", JString (lit "Temperature"));
                (lit "name", JString (lit "temperature"));
                (lit "type", JString (lit "number"));
                (lit "typeOptions",
                  JObject
                    [
                      (lit "minValue", JNumber (Int 0));
                      (lit "maxValue", JNumber (Int 2));
                      (lit "numberStepSize", JNumber (Dec (lit "0.1"))) ]);
                (lit "default", JNumber (Int 1));
                (lit "description", JString (lit "Controls randomness: Lowering results in less random completions. As the temperature approaches zero, the model will become deterministic and repetitive.")) ];
            JObject
              [
                (lit "displayName", JString (lit "Top P"));
                (lit "name", JString (lit "top_p"));
                (lit "type", JString (lit "number"));
                (lit "typeOptions",
                  JObject
                    [
                      (lit "minValue", JNumber (Int 0));
                      (lit "maxValue", JNumber (Int 1));
                      (lit "numberStepSize", JNumber (Dec (lit "0.1"))) ]);
                (lit "default", JNumber (Int 1));
                (lit "description", JString (lit "Controls diversity via nucleus sampling: 0.5 means half of all likelihood-weighted options are considered")) ];
            JObject
              [
                (lit "displayName", JString (lit "Frequency Penalty"));
                (lit "name", JString (lit "frequency_penalty"));
                (lit "type", JString (lit "number"));
                (lit "typeOptions",
                  JObject
                    [
                      (lit "minValue", JNumber (Int (-2)));
                      (lit "maxValue", JNumber (Int 2));
                      (lit "numberStepSize", JNumber (Dec (lit "0.1"))) ]);
                (lit "default", JNumber (Int 0));
                (lit "description", JString (lit "How much to penalize new tokens based on their existing frequency in the text so far. Decreases the model's likelihood to repeat the same line verbatim.")) ];
            JObject
              [
                (lit "displayName", JString (lit "Presence Penalty"));
                (lit "name", JString (lit "presence_penalty"));
                (lit "type", JString (lit "number"));
                (lit "typeOptions",
                  JObject
                    [
                      (lit "minValue", JNumber (Int (-2)));
                      (lit "maxValue", JNumber (Int 2));
                      (lit "numberStepSize", JNumber (Dec (lit "0.1"))) ]);
                (lit "default", JNumber (Int 0));
                (lit "description", JString (lit "How much to penalize new tokens based on whether they appear in the text so far. Increases the model's likelihood to talk about new topics.")) ];
            JObject
              [
                (lit "displayName", JString (lit "Stream"));
                (lit "name", JString (lit "stream"));
                (lit "type", JString (lit "boolean"));
                (lit "default", JBool false);
                (lit "description", JString (lit "Whether to stream back partial progress. If set, tokens will be sent as data-only server-sent events as they become available.")) ] ]) ].

(** The elements of an array. *)
Definition elements (v : jsvalue) : list jsvalue :=
  match v with
  | JArray l => l
  | _ => []
  end.

(** [description.properties], the declared parameters. *)
Definition properties : list jsvalue :=
  elements (property description (lit "properties")).

(** Whether [v.name === name]. *)
Definition named (name : jsstring) (v : jsvalue) : bool :=
  match property v (lit "name") with
  | JString s => str_eqb s name
  | _ => false
  end.

(** A parameter path [root.leaf]: what is before the first dot, and what
    is after it. *)
Fixpoint root (path : jsstring) : jsstring :=
  match path with
  | [] => []
  | c :: r => if N.eqb c 46 then [] else c :: root r
  end.

Fixpoint leaf (path : jsstring) : option jsstring :=
  match path with
  | [] => None
  | c :: r => if N.eqb c 46 then Some r else leaf r
  end.

(** A path that the description resolves: its root is the name of a
    declared parameter and its leaf, when it has one, the name of an
    option of that parameter, a [fixedCollection]. *)
Definition resolves (path : jsstring) : bool :=
  match find (named (root path)) properties with
  | None => false
  | Some p =>
      match leaf path with
      | None => true
      | Some l =>
          match property p (lit "type") with
          | JString t =>
              str_eqb t (lit "fixedCollection")
              && existsb (named l) (elements (property p (lit "options")))
          | _ => false
          end
      end
  end.

(** The names of the parameters that an item reads, in order. *)
Definition read_names (i : nat) : list jsstring :=
  flat_map (fun e => match e with
                     | ParameterRead p _ => [p]
                     | _ => []
                     end)
           (parameter_reads i).

Definition integer (v : jsvalue) : option Z :=
  match v with
  | JNumber (Int z) => Some z
  | _ => None
  end.

(** A bound of [typeOptions] that the default meets; no bound is met. *)
Definition meets (d : Z) (bound : jsvalue) (below : bool) : bool :=
  match bound with
  | JUndefined => true
  | b => match integer b with
         | Some z => if below then Z.leb z d else Z.leb d z
         | None => false
         end
  end.

(** The default of a [number] parameter lies between its [minValue] and
    its [maxValue]; the default of a parameter with listed options is
    the value of one of them. *)
Definition default_valid (p : jsvalue) : bool :=
  match property p (lit "type") with
  | JString t =>
      if str_eqb t (lit "number") then
        match integer (property p (lit "default")) with
        | Some d =>
            meets d (property (property p (lit "typeOptions"))
                              (lit "minValue")) true
            && meets d (property (property p (lit "typeOptions"))
                                 (lit "maxValue")) false
        | None => false
        end
      else if str_eqb t (lit "options") then
        match property p (lit "options"), property p (lit "default") with
        | JArray options, JString d =>
            existsb (fun o => match property o (lit "value") with
                              | JString s => str_eqb s d
                              | _ => false
                              end) options
        | JUndefined, _ => true
        | _, _ => false
        end
      else true
  | _ => false
  end.

(** The default of the parameter [name]. *)
Definition default_of (name : jsstring) : jsvalue :=
  match find (named name) properties with
  | Some p => property p (lit "default")
  | None => JUndefined
  end.

End Schema.

(* ================================================================== *)
(** * Vocabulary of the further statements *)

(** The nine reads of item [i] in the order of lines 238-253: the first
    failure with its position, or what was read. *)
Definition read_all (this : Host) (i : nat) : (thrown * nat) + configuration :=
  match string_parameter this (lit "operation") i with
  | inl e => inl (e, 0)
  | inr operation =>
  match string_parameter this (lit "model") i with
  | inl e => inl (e, 1)
  | inr model =>
  match match objects_parameter this (lit "messages.messagesValues") i with
        | Some r => r
        | None => inr []
        end with
  | inl e => inl (e, 2)
  | inr messages =>
  match number_parameter this (lit "max_tokens") i with
  | inl e => inl (e, 3)
  | inr max_tokens =>
  match number_parameter this (lit "temperature") i with
  | inl e => inl (e, 4)
  | inr temperature =>
  match number_parameter this (lit "top_p") i with
  | inl e => inl (e, 5)
  | inr top_p =>
  match number_parameter this (lit "frequency_penalty") i with
  | inl e => inl (e, 6)
  | inr frequency_penalty =>
  match number_parameter this (lit "presence_penalty") i with
  | inl e => inl (e, 7)
  | inr presence_penalty =>
  match boolean_parameter this (lit "stream") i with
  | inl e => inl (e, 8)
  | inr stream =>
      inr {| c_operation := operation;
             c_model := model;
             c_messages := messages;
             c_max_tokens := max_tokens;
             c_temperature := temperature;
             c_top_p := top_p;
             c_frequency_penalty := frequency_penalty;
             c_presence_penalty := presence_penalty;
             c_stream := stream |}
  end end end end end end end end end.

(** The number of requests in a log. *)
Definition requests (log : list event) : nat :=
  length (filter is_request log).


(** The text [p] occurs in the text [s]. *)
Definition occurs_in (p s : jsstring) : Prop :=
  exists a b, s = a ++ p ++ b.

(** What every request of [execute] has: the method, the address, the
    four headers with the key of the credentials, and a payload of the
    eight fields. *)
Definition chat_request (apiKey : jsstring) (options : jsvalue) : Prop :=
  property options (lit "method") = JString (lit "POST")
  /\ property options (lit "url")
     = JString (lit "https://openrouter.ai/api/v1/chat/completions")
  /\ property options (lit "headers")
     = JObject
         [ (lit "Authorization", JString (lit "Bearer " ++ apiKey));
           (lit "Content-Type", JString (lit "application/json"));
           (lit "HTTP-Referer", JString (lit "https://n8n.io"));
           (lit "X-Title", JString (lit "n8n OpenRouter Node")) ]
  /\ keys (property options (lit "body"))
     = [ lit "model"; lit "messages"; lit "max_tokens"; lit "temperature";
         lit "top_p"; lit "frequency_penalty"; lit "presence_penalty";
         lit "stream" ]
  /\ property options (lit "json")
     = JBool (match property (property options (lit "body")) (lit "stream") with
              | JBool true => false
              | _ => true
              end).

(** ** Further sample hosts *)

Module More.

(** The host [h] with credentials that cannot be read. *)
Definition locked (h : Host) : Host :=
  {| getNode := getNode h;
     getInputData := getInputData h;
     credentials_of := fun _ => inl (Error OtherError (lit "No credentials"));
     string_parameter := string_parameter h;
     number_parameter := number_parameter h;
     boolean_parameter := boolean_parameter h;
     objects_parameter := objects_parameter h;
     response_to := response_to h;
     continueOnFail := continueOnFail h;
     engine_message := engine_message h;
     descriptive_message := descriptive_message h |}.

(** The host [h] where no [number] parameter can be read. *)
Definition numberless (h : Host) : Host :=
  {| getNode := getNode h;
     getInputData := getInputData h;
     credentials_of := credentials_of h;
     string_parameter := string_parameter h;
     number_parameter := fun _ _ => Sample.unknown_parameter;
     boolean_parameter := boolean_parameter h;
     objects_parameter := objects_parameter h;
     response_to := response_to h;
     continueOnFail := continueOnFail h;
     engine_message := engine_message h;
     descriptive_message := descriptive_message h |}.

(** A rejected request. *)
Definition refused : thrown := Error OtherError (lit "connect ECONNREFUSED").

Definition refuse (log : list event) (options : jsvalue)
  : thrown + jsvalue := inl refused.

(** One item left at the defaults of the description. *)
Definition defaults : Host :=
  {| getNode := Sample.node;
     getInputData := [Sample.empty_item];
     credentials_of := fun _ => inr Sample.credentials;
     string_parameter := fun p _ =>
       match Schema.default_of p with
       | JString s => inr s
       | _ => Sample.unknown_parameter
       end;
     number_parameter := fun p _ =>
       match Schema.default_of p with
       | JNumber n => inr n
       | _ => Sample.unknown_parameter
       end;
     boolean_parameter := fun p _ =>
       match Schema.default_of p with
       | JBool b => inr b
       | _ => Sample.unknown_parameter
       end;
     objects_parameter := fun p _ =>
       match property (Schema.default_of (Schema.root p))
                      (match Schema.leaf p with Some l => l | None => [] end)
       with
       | JArray l =>
           Some (inr (flat_map (fun v => match v with
                                         | JObject ps => [ps]
                                         | _ => []
                                         end) l))
       | _ => None
       end;
     response_to := Sample.echo;
     continueOnFail := false;
     engine_message := fun _ => [];
     descriptive_message := Sample.descriptive |}.

(** What [defaults] has configured for its item. *)
Definition default_configuration : configuration :=
  {| c_operation := lit "chatCompletion";
     c_model := [];
     c_messages := [ [ (lit "role", JString (lit "user"));
                       (lit "content", JString []) ] ];
     c_max_tokens := Int 16;
     c_temperature := Int 1;
     c_top_p := Int 1;
     c_frequency_penalty := Int 0;
     c_presence_penalty := Int 0;
     c_stream := false |}.

End More.

(* ================================================================== *)
(** * Strings *)

Lemma str_eqb_eq (a b : jsstring) : str_eqb a b = true <-> a = b.
Proof.
  revert b; induction a as [|x a IH]; intros [|y b]; simpl;
    try (split; [discriminate | discriminate]); try tauto.
  rewrite andb_true_iff, N.eqb_eq, IH.
  split; [intros [-> ->]; reflexivity | intros H; inversion H; auto].
Qed.

Lemma str_eqb_refl (a : jsstring) : str_eqb a a = true.
Proof. apply str_eqb_eq; reflexivity. Qed.

Lemma str_eqb_neq (a b : jsstring) : str_eqb a b = false <-> a <> b.
Proof.
  rewrite <- str_eqb_eq. destruct (str_eqb a b); split; congruence.
Qed.

Lemma starts_with_app (p s : jsstring) : starts_with p (p ++ s) = true.
Proof.
  induction p as [|x p IH]; simpl; [reflexivity|].
  rewrite N.eqb_refl, IH; reflexivity.
Qed.

Lemma starts_with_split (p s : jsstring) :
  starts_with p s = true -> s = p ++ skipn (length p) s.
Proof.
  revert s; induction p as [|x p IH]; intros s H; simpl in *.
  - reflexivity.
  - destruct s as [|y s]; [discriminate|].
    apply andb_true_iff in H as [Hx Hp].
    apply N.eqb_eq in Hx; subst y.
    simpl. f_equal. apply IH, Hp.
Qed.

Lemma starts_with_length (p s : jsstring) :
  starts_with p s = true -> length p <= length s.
Proof.
  intros H. rewrite (starts_with_split p s H) at 1.
  rewrite length_app. lia.
Qed.

(** ** [trim] *)

Lemma trim_start_nil (s : jsstring) :
  trim_start s = [] <-> forallb is_trim_space s = true.
Proof.
  induction s as [|c s IH]; simpl; [tauto|].
  destruct (is_trim_space c); simpl; [exact IH|].
  split; discriminate.
Qed.

Lemma trim_start_spaces (s : jsstring) :
  forallb is_trim_space (trim_start s) = forallb is_trim_space s.
Proof.
  induction s as [|c s IH]; simpl; [reflexivity|].
  destruct (is_trim_space c) eqn:E; simpl; [exact IH|].
  rewrite E; reflexivity.
Qed.

Lemma forallb_rev {A} (f : A -> bool) (l : list A) :
  forallb f (rev l) = forallb f l.
Proof.
  induction l as [|x l IH]; simpl; [reflexivity|].
  rewrite forallb_app, IH; simpl.
  rewrite andb_true_r. apply andb_comm.
Qed.

Lemma has_text_spaces (s : jsstring) :
  has_text s = negb (forallb is_trim_space s).
Proof.
  unfold has_text. induction s as [|c s IH]; simpl; [reflexivity|].
  rewrite IH, negb_andb; reflexivity.
Qed.

(** [chunk.trim() !== ''] holds exactly of a chunk with a code unit that
    is no white space. *)
Lemma trim_not_empty (chunk : jsstring) :
  negb (str_eqb (trim chunk) []) = has_text chunk.
Proof.
  rewrite has_text_spaces. f_equal.
  rewrite <- trim_start_spaces, <- forallb_rev, <- trim_start_spaces.
  unfold trim.
  destruct (trim_start (rev (trim_start chunk))) as [|c t] eqn:E.
  - reflexivity.
  - assert (H : forallb is_trim_space (c :: t) <> true).
    { rewrite <- E. rewrite <- trim_start_nil. rewrite E.
      assert (Hi : trim_start (c :: t) = c :: t).
      { rewrite <- E. clear E.
        generalize (rev (trim_start chunk)); intros l.
        induction l as [|x l IH]; simpl; [reflexivity|].
        destruct (is_trim_space x) eqn:Ex; [exact IH|].
        simpl; rewrite Ex; reflexivity. }
      rewrite Hi; discriminate. }
    destruct (forallb is_trim_space (c :: t)); [congruence|].
    apply str_eqb_neq. intros H0.
    apply (f_equal (@length N)) in H0.
    rewrite length_rev in H0. discriminate.
Qed.

(** ** [split] *)

Lemma split_from_not_nil (sep : jsstring) (s : jsstring) :
  forall skip cur, split_from sep skip cur s <> [].
Proof.
  induction s as [|c s IH]; intros skip cur; simpl; [discriminate|].
  destruct skip; [|apply IH].
  destruct (starts_with sep (c :: s)); [discriminate | apply IH].
Qed.

Lemma join_cons (p : jsstring) (ps : list jsstring) (sep : jsstring) :
  ps <> [] -> join (p :: ps) sep = p ++ sep ++ join ps sep.
Proof. destruct ps; [congruence | reflexivity]. Qed.

Lemma join_split_from (x : N) (sep' : jsstring) (s : jsstring) :
  forall skip cur,
    skip <= length s ->
    join (split_from (x :: sep') skip cur s) (x :: sep')
    = cur ++ skipn skip s.
Proof.
  set (sep := x :: sep').
  induction s as [|c s IH]; intros skip cur Hk.
  - simpl in Hk. replace skip with 0 by lia.
    simpl. rewrite app_nil_r. reflexivity.
  - destruct skip as [|k]; cbn [split_from skipn].
    + destruct (starts_with sep (c :: s)) eqn:E.
      * rewrite join_cons by apply split_from_not_nil.
        pose proof (starts_with_length _ _ E) as Hl.
        pose proof (starts_with_split _ _ E) as Hs.
        rewrite IH by (subst sep; simpl in Hl |- *; lia).
        rewrite Hs at 1. subst sep. simpl.
        rewrite Nat.sub_0_r. reflexivity.
      * rewrite IH by lia. simpl. rewrite <- app_assoc. reflexivity.
    + apply IH. simpl in Hk. lia.
Qed.

(** Joining the pieces with the separator gives the text back. *)
Lemma join_split (s sep : jsstring) :
  sep <> [] -> join (split s sep) sep = s.
Proof.
  intros H. destruct sep as [|x sep]; [congruence|].
  unfold split. rewrite join_split_from by lia. reflexivity.
Qed.

(** ** [replace] *)

(** A leading pattern is what goes. *)
Lemma replace_prefix (p r s : jsstring) : replace (p ++ s) p r = r ++ s.
Proof.
  destruct (p ++ s) as [|c t] eqn:E; simpl.
  - destruct p; [|discriminate]. simpl in E; subst s.
    simpl. rewrite app_nil_r. reflexivity.
  - rewrite <- E, starts_with_app.
    f_equal. rewrite skipn_app, skipn_all, Nat.sub_diag. reflexivity.
Qed.

(** Only the first occurrence goes: with the pattern at no earlier place,
    [a ++ p ++ b] becomes [a ++ r ++ b]. *)
Lemma replace_first (p r a b : jsstring) :
  (forall a1 a2, a = a1 ++ a2 -> a2 <> [] ->
                 starts_with p (a2 ++ p ++ b) = false) ->
  replace (a ++ p ++ b) p r = a ++ r ++ b.
Proof.
  induction a as [|c a IH]; intros H.
  - exact (replace_prefix p r b).
  - pose proof (H [] (c :: a) eq_refl) as E. simpl in E |- *.
    rewrite E by discriminate.
    f_equal. apply IH. intros a1 a2 -> Hne.
    apply (H (c :: a1) a2); [reflexivity | exact Hne].
Qed.

(** A text without the pattern stays as it is. *)
Lemma replace_absent (p r s : jsstring) :
  (forall s1 s2, s = s1 ++ s2 -> starts_with p s2 = false) ->
  replace s p r = s.
Proof.
  induction s as [|c s IH]; intros H; simpl.
  - rewrite (H [] [] eq_refl). reflexivity.
  - rewrite (H [] (c :: s) eq_refl). f_equal.
    apply IH. intros s1 s2 ->. apply (H (c :: s1) s2). reflexivity.
Qed.

(** ** [includes] *)


(* ================================================================== *)
(** * The JSON grammar: fuel *)

Lemma skip_space_length (s : jsstring) :
  length (skip_space s) <= length s.
Proof.
  induction s as [|c s IH]; simpl; [lia|].
  destruct (is_json_space c); simpl; lia.
Qed.

Lemma span_digits_length (s ds r : jsstring) :
  span_digits s = (ds, r) -> length s = length ds + length r.
Proof.
  revert ds r; induction s as [|c s IH]; intros ds r H; simpl in H.
  - inversion H; reflexivity.
  - destruct (is_digit c).
    + destruct (span_digits s) as [ds' r'].
      inversion H; subst. simpl. rewrite (IH ds' r eq_refl). reflexivity.
    + inversion H; subst. reflexivity.
Qed.

Lemma cons_unit_some (c : N) (x : option (jsstring * jsstring))
    (cs r : jsstring) :
  cons_unit c x = Some (cs, r) -> exists cs', x = Some (cs', r).
Proof.
  destruct x as [[cs' r']|]; simpl; intros H; inversion H; subst.
  exists cs'. reflexivity.
Qed.

Lemma string_body_shorter (n : nat) :
  forall s cs r,
    length s <= n -> string_body s = Some (cs, r) -> length r < length s.
Proof.
  induction n as [|n IH]; intros s cs r Hn H;
    (destruct s as [|c s]; [discriminate|]); simpl in Hn; [lia|].
  simpl in H.
  destruct (N.eqb c 34); [inversion H; subst; simpl; lia|].
  destruct (N.eqb c 92).
  - destruct s as [|e s1]; [discriminate|].
    destruct (N.eqb e 117).
    + destruct s1 as [|h1 [|h2 [|h3 [|h4 s2]]]]; try discriminate.
      destruct (hex4 h1 h2 h3 h4); [|discriminate].
      apply cons_unit_some in H as [cs' H].
      apply IH in H; simpl in *; lia.
    + destruct (escape e); [|discriminate].
      apply cons_unit_some in H as [cs' H].
      apply IH in H; simpl in *; lia.
  - destruct (N.ltb c 32); [discriminate|].
    apply cons_unit_some in H as [cs' H].
    apply IH in H; simpl in *; lia.
Qed.

Lemma fraction_length (s t r : jsstring) :
  fraction s = Some (t, r) -> length r <= length s.
Proof.
  unfold fraction. destruct s as [|c s]; [intros H; inversion H; simpl; lia|].
  destruct (N.eqb c 46).
  - destruct (span_digits s) as [ds r'] eqn:E.
    apply span_digits_length in E.
    destruct ds; [discriminate|]. intros H; inversion H; subst.
    simpl in *; lia.
  - intros H; inversion H; subst. lia.
Qed.

Lemma exponent_length (s t r : jsstring) :
  exponent s = Some (t, r) -> length r <= length s.
Proof.
  unfold exponent. destruct s as [|e s]; [intros H; inversion H; simpl; lia|].
  destruct (N.eqb e 101 || N.eqb e 69)%bool.
  - assert (L : forall sign r1,
               match s with
               | g :: r0 =>
                   if (N.eqb g 43 || N.eqb g 45)%bool
                   then ([g], r0) else ([], s)
               | [] => ([], s)
               end = (sign, r1) -> length r1 <= length s).
    { intros sign r1. destruct s as [|g r0]; [intros H; inversion H; lia|].
      destruct (N.eqb g 43 || N.eqb g 45)%bool;
        intros H; inversion H; subst; simpl; lia. }
    destruct (match s with [] => _ | _ :: _ => _ end) as [sign r1] eqn:Es.
    specialize (L _ _ eq_refl).
    destruct (span_digits r1) as [ds r2] eqn:E.
    apply span_digits_length in E.
    destruct ds; [discriminate|]. intros H; inversion H; subst.
    simpl in *; lia.
  - intros H; inversion H; subst. lia.
Qed.

Lemma number_token_shorter (s r : jsstring) (n : number) :
  number_token s = Some (n, r) -> length r < length s.
Proof.
  unfold number_token.
  destruct (match s with [] => _ | _ :: _ => _ end) as [negative s1] eqn:E1.
  assert (L1 : length s1 <= length s).
  { destruct s as [|c s]; [inversion E1; lia|].
    destruct (N.eqb c 45); inversion E1; subst; simpl; lia. }
  destruct (span_digits s1) as [int s2] eqn:E2.
  apply span_digits_length in E2.
  destruct int as [|d more]; [discriminate|].
  destruct (N.eqb d 48 && negb (Nat.eqb (length more) 0))%bool;
    [discriminate|].
  destruct (fraction s2) as [[ftext s3]|] eqn:E3; [|discriminate].
  apply fraction_length in E3.
  destruct (exponent s3) as [[etext rest]|] eqn:E4; [|discriminate].
  apply exponent_length in E4.
  intros H; inversion H; subst. simpl in *; lia.
Qed.

Lemma after_word_shorter (w s r : jsstring) :
  w <> [] -> after_word w s = Some r -> length r < length s.
Proof.
  unfold after_word. intros Hw.
  destruct (starts_with w s) eqn:E; [|discriminate].
  intros H; inversion H; subst.
  apply starts_with_length in E. rewrite length_skipn.
  destruct w; [congruence|]. simpl in *; lia.
Qed.

(** What the lemmas above say of the hypotheses at hand. *)
Ltac lengths :=
  repeat match goal with
    | H : skip_space ?a = ?b |- _ =>
        lazymatch goal with
        | _ : length b <= length a |- _ => fail
        | _ => let L := fresh "L" in
               assert (L : length b <= length a)
                 by (rewrite <- H; apply skip_space_length)
        end
    | H : string_body ?a = Some (_, ?b) |- _ =>
        lazymatch goal with
        | _ : length b < length a |- _ => fail
        | _ => let L := fresh "L" in
               assert (L : length b < length a)
                 by (exact (string_body_shorter _ _ _ _ (le_n _) H))
        end
    | H : number_token ?a = Some (_, ?b) |- _ =>
        lazymatch goal with
        | _ : length b < length a |- _ => fail
        | _ => let L := fresh "L" in
               assert (L : length b < length a)
                 by (exact (number_token_shorter _ _ _ H))
        end
    | H : after_word ?w ?a = Some ?b |- _ =>
        lazymatch goal with
        | _ : length b < length a |- _ => fail
        | _ => let L := fresh "L" in
               assert (L : length b < length a)
                 by (apply (after_word_shorter w); [discriminate | exact H])
        end
    end.

(** A value takes at least one code unit of the text. *)
Lemma json_shorter (f : nat) :
  (forall s v r, json_value f s = Some (v, r) -> length r < length s)
  /\ (forall acc s v r,
        json_elements f acc s = Some (v, r) -> length r < length s)
  /\ (forall acc s v r,
        json_members f acc s = Some (v, r) -> length r < length s).
Proof.
  induction f as [|f (IHv & IHe & IHm)];
    (split; [|split]); try (intros; discriminate).
  - intros s v r H. cbn [json_value] in H.
    destruct (skip_space s) as [|c r0] eqn:E0; [discriminate|].
    destruct (N.eqb c 123).
    { destruct (skip_space r0) as [|c' r'] eqn:E1; [discriminate|].
      destruct (N.eqb c' 125).
      - inversion H; subst. lengths. simpl in *; lia.
      - apply IHm in H. lengths. simpl in *; lia. }
    destruct (N.eqb c 91).
    { destruct (skip_space r0) as [|c' r'] eqn:E1; [discriminate|].
      destruct (N.eqb c' 93).
      - inversion H; subst. lengths. simpl in *; lia.
      - apply IHe in H. lengths. simpl in *; lia. }
    destruct (N.eqb c 34).
    { destruct (string_body r0) as [[cs r']|] eqn:E1; [|discriminate].
      inversion H; subst. lengths. simpl in *; lia. }
    destruct (after_word (lit "true") (c :: r0)) as [r1|] eqn:E1;
      [inversion H; subst; lengths; simpl in *; lia|].
    destruct (after_word (lit "false") (c :: r0)) as [r2|] eqn:E2;
      [inversion H; subst; lengths; simpl in *; lia|].
    destruct (after_word (lit "null") (c :: r0)) as [r3|] eqn:E3;
      [inversion H; subst; lengths; simpl in *; lia|].
    destruct (number_token (c :: r0)) as [[n r4]|] eqn:E4; [|discriminate].
    inversion H; subst. lengths. simpl in *; lia.
  - intros acc s v r H. cbn [json_elements] in H.
    destruct (json_value f s) as [[v0 r0]|] eqn:E0; [|discriminate].
    apply IHv in E0.
    destruct (skip_space r0) as [|c r1] eqn:E1; [discriminate|].
    lengths.
    destruct (N.eqb c 44); [apply IHe in H; simpl in *; lia|].
    destruct (N.eqb c 93); [|discriminate].
    inversion H; subst. simpl in *; lia.
  - intros acc s v r H. cbn [json_members] in H.
    destruct (skip_space s) as [|q r0] eqn:E0; [discriminate|].
    destruct (N.eqb q 34); [|discriminate].
    destruct (string_body r0) as [[key r1]|] eqn:E1; [|discriminate].
    destruct (skip_space r1) as [|c r2] eqn:E2; [discriminate|].
    destruct (N.eqb c 58); [|discriminate].
    destruct (json_value f r2) as [[v0 r3]|] eqn:E3; [|discriminate].
    apply IHv in E3.
    destruct (skip_space r3) as [|c' r4] eqn:E4; [discriminate|].
    lengths.
    destruct (N.eqb c' 44); [apply IHm in H; simpl in *; lia|].
    destruct (N.eqb c' 125); [|discriminate].
    inversion H; subst. simpl in *; lia.
Qed.

(** With fuel for twice the text, more fuel changes nothing. *)
Lemma json_fuel (f : nat) :
  (forall s f',
      2 * length s + 1 <= f -> 2 * length s + 1 <= f' ->
      json_value f s = json_value f' s)
  /\ (forall acc s f',
        2 * length s + 2 <= f -> 2 * length s + 2 <= f' ->
        json_elements f acc s = json_elements f' acc s)
  /\ (forall acc s f',
        2 * length s + 2 <= f -> 2 * length s + 2 <= f' ->
        json_members f acc s = json_members f' acc s).
Proof.
  induction f as [|f (IHv & IHe & IHm)];
    (split; [|split]); try (intros; lia).
  - intros s [|f'] Hf Hf'; [lia|]. cbn [json_value].
    destruct (skip_space s) as [|c r0] eqn:E0; [reflexivity|].
    lengths.
    destruct (N.eqb c 123).
    { destruct (skip_space r0) as [|c' r'] eqn:E1; [reflexivity|].
      destruct (N.eqb c' 125); [reflexivity|].
      apply IHm; simpl in *; lia. }
    destruct (N.eqb c 91); [|reflexivity].
    destruct (skip_space r0) as [|c' r'] eqn:E1; [reflexivity|].
    destruct (N.eqb c' 93); [reflexivity|].
    apply IHe; simpl in *; lia.
  - intros acc s [|f'] Hf Hf'; [lia|]. cbn [json_elements].
    rewrite (IHv s f') by lia.
    destruct (json_value f' s) as [[v0 r0]|] eqn:E0; [|reflexivity].
    apply (proj1 (json_shorter f')) in E0.
    destruct (skip_space r0) as [|c r1] eqn:E1; [reflexivity|].
    lengths.
    destruct (N.eqb c 44); [|reflexivity].
    apply IHe; simpl in *; lia.
  - intros acc s [|f'] Hf Hf'; [lia|]. cbn [json_members].
    destruct (skip_space s) as [|q r0] eqn:E0; [reflexivity|].
    destruct (N.eqb q 34); [|reflexivity].
    destruct (string_body r0) as [[key r1]|] eqn:E1; [|reflexivity].
    destruct (skip_space r1) as [|c r2] eqn:E2; [reflexivity|].
    destruct (N.eqb c 58); [|reflexivity].
    lengths.
    rewrite (IHv r2 f') by (simpl in *; lia).
    destruct (json_value f' r2) as [[v0 r3]|] eqn:E3; [|reflexivity].
    apply (proj1 (json_shorter f')) in E3.
    destruct (skip_space r3) as [|c' r4] eqn:E4; [reflexivity|].
    lengths.
    destruct (N.eqb c' 44); [|reflexivity].
    apply IHm; simpl in *; lia.
Qed.

(** The fuel of [JSON_text] is enough: a text it rejects is rejected
    with any fuel beyond, and a value it finds is found with any. *)
Lemma json_value_fuel (s : jsstring) (f : nat) :
  2 * length s + 1 <= f ->
  json_value f s = json_value (2 * length s + 2) s.
Proof. intros H. apply (proj1 (json_fuel f)); lia. Qed.

(* ================================================================== *)
(** * One item *)

Section Item.

Variable this : Host.

(** ** The chunks of a streamed response *)

Lemma JSON_parse_log (text : jsstring) (log : list event) :
  snd (JSON_parse this text log) = log.
Proof. unfold JSON_parse. destruct (JSON_text text); reflexivity. Qed.

Lemma parse_chunk_eq (c : jsstring) (log : list event) :
  parse_chunk this c log
  = (match JSON_text (residual c) with
     | Some v => inr v
     | None => inl (Error SyntaxError
                      (engine_message this (BadJSON (residual c))))
     end, log).
Proof.
  unfold parse_chunk, JSON_parse, residual.
  destruct (JSON_text _); reflexivity.
Qed.

Lemma mapM_parse_log (cs : list jsstring) (log : list event) :
  snd (mapM (parse_chunk this) cs log) = log.
Proof.
  induction cs as [|c cs IH]; [reflexivity|].
  cbn [mapM]. unfold bind at 1. rewrite parse_chunk_eq.
  destruct (JSON_text (residual c)); [|reflexivity].
  unfold bind at 1.
  destruct (mapM (parse_chunk this) cs log) as [[e|vs] log'];
    simpl in IH; subst; reflexivity.
Qed.

(** Every residual a JSON text: the values, in the order of the chunks. *)
Lemma mapM_parse_ok (cs : list jsstring) (vs : list jsvalue)
    (log : list event) :
  Forall2 (fun c v => JSON_text (residual c) = Some v) cs vs ->
  mapM (parse_chunk this) cs log = (inr vs, log).
Proof.
  induction 1 as [|c v cs vs Hc _ IH]; [reflexivity|].
  cbn [mapM]. unfold bind at 1. rewrite parse_chunk_eq, Hc.
  unfold bind at 1. rewrite IH. reflexivity.
Qed.

(** The first residual that is no JSON text: its [SyntaxError], and no
    values at all. *)
Lemma mapM_parse_fail (before after : list jsstring) (c : jsstring)
    (vs : list jsvalue) (log : list event) :
  Forall2 (fun c v => JSON_text (residual c) = Some v) before vs ->
  JSON_text (residual c) = None ->
  mapM (parse_chunk this) (before ++ c :: after) log
  = (inl (Error SyntaxError (engine_message this (BadJSON (residual c)))),
     log).
Proof.
  intros Hb Hc. induction Hb as [|b v before vs Hv _ IH].
  - cbn [app mapM]. unfold bind at 1. rewrite parse_chunk_eq, Hc.
    reflexivity.
  - cbn [app mapM]. unfold bind at 1. rewrite parse_chunk_eq, Hv.
    unfold bind at 1. rewrite IH. reflexivity.
Qed.

Lemma streamed_log (response : jsvalue) (log : list event) :
  snd (streamed this response log) = log.
Proof.
  destruct response; try reflexivity.
  unfold streamed, bind.
  pose proof (mapM_parse_log (chunks s) log) as H.
  destruct (mapM (parse_chunk this) (chunks s) log) as [[e|vs] log'];
    simpl in H; subst; reflexivity.
Qed.

(** ** The reads *)

Lemma reads_log (log : list event) (i : nat) :
  ((((((((log ++ [ParameterRead (lit "operation") i])
         ++ [ParameterRead (lit "model") i])
        ++ [ParameterRead (lit "messages.messagesValues") i])
       ++ [ParameterRead (lit "max_tokens") i])
      ++ [ParameterRead (lit "temperature") i])
     ++ [ParameterRead (lit "top_p") i])
    ++ [ParameterRead (lit "frequency_penalty") i])
   ++ [ParameterRead (lit "presence_penalty") i])
  ++ [ParameterRead (lit "stream") i]
  = log ++ parameter_reads i.
Proof. unfold parameter_reads. rewrite <- !app_assoc. reflexivity. Qed.

Ltac run_reads H :=
  destruct H as (H1 & H2 & H3 & H4 & H5 & H6 & H7 & H8 & H9);
  cbv beta iota delta
    [try_item bind getNodeParameter_string getNodeParameter_number
     getNodeParameter_boolean getNodeParameter_objects];
  rewrite H1; cbv beta iota zeta; rewrite H2; cbv beta iota zeta;
  rewrite H3; cbv beta iota zeta; rewrite H4; cbv beta iota zeta;
  rewrite H5; cbv beta iota zeta; rewrite H6; cbv beta iota zeta;
  rewrite H7; cbv beta iota zeta; rewrite H8; cbv beta iota zeta;
  rewrite H9; cbv beta iota zeta; rewrite reads_log.

(** An operation that is not [chatCompletion]. *)
Lemma try_item_unsupported (apiKey : jsstring) (i : nat)
    (c : configuration) (log : list event) :
  configured this i c ->
  c_operation c <> lit "chatCompletion" ->
  try_item this apiKey i log
  = (inl (NodeOperationError this (getNode this)
            (lit "The operation " ++ dquote ++ c_operation c ++ dquote
             ++ lit " is not supported")),
     log ++ parameter_reads i).
Proof.
  intros H Hop. run_reads H.
  apply str_eqb_neq in Hop. rewrite Hop. reflexivity.
Qed.

(** No message. *)
Lemma try_item_no_message (apiKey : jsstring) (i : nat)
    (c : configuration) (log : list event) :
  configured this i c ->
  c_operation c = lit "chatCompletion" ->
  c_messages c = [] ->
  try_item this apiKey i log
  = (inl (NodeOperationError this (getNode this)
            (lit "At least one message is required")),
     log ++ parameter_reads i).
Proof.
  intros H Hop Hm. run_reads H.
  rewrite Hop, str_eqb_refl, Hm. reflexivity.
Qed.

(** A message at least: one request, and what follows its answer. *)
Lemma try_item_request (apiKey : jsstring) (i : nat)
    (c : configuration) (log : list event) :
  configured this i c ->
  c_operation c = lit "chatCompletion" ->
  c_messages c <> [] ->
  try_item this apiKey i log
  = let log1 := log ++ parameter_reads i in
    let log2 := log1 ++ [Requested (options_sent apiKey c)] in
    match response_to this log1 (options_sent apiKey c) with
    | inl error => (inl error, log2)
    | inr response =>
        if c_stream c
        then streamed this response log2
        else (inr {| json := response; pairedItem := None |}, log2)
    end.
Proof.
  intros H Hop Hm. run_reads H.
  rewrite Hop, str_eqb_refl.
  destruct (c_messages c) as [|m ms] eqn:Em; [congruence|].
  cbn [map length Nat.eqb]. cbv zeta.
  unfold options_sent, payload, helpers_request. rewrite Em.
  destruct (c_stream c); cbv beta iota;
    destruct (response_to this _ _); reflexivity.
Qed.

(** The log of an item that gets as far as its request. *)
Lemma try_item_request_log (apiKey : jsstring) (i : nat)
    (c : configuration) (log : list event) :
  configured this i c ->
  c_operation c = lit "chatCompletion" ->
  c_messages c <> [] ->
  snd (try_item this apiKey i log)
  = log ++ parameter_reads i ++ [Requested (options_sent apiKey c)].
Proof.
  intros H Hop Hm. rewrite (try_item_request apiKey i c log H Hop Hm).
  cbv zeta. rewrite <- app_assoc.
  destruct (response_to this _ _) as [e|response]; [reflexivity|].
  destruct (c_stream c); [apply streamed_log | reflexivity].
Qed.

(** ** The log of an item *)

Lemma stays_ret {A} (i : nat) (a : A) : stays_with i (ret a).
Proof. intros log. exists []. rewrite app_nil_r. split; constructor. Qed.

Lemma stays_throw {A} (i : nat) (e : thrown) : stays_with i (@throw A e).
Proof. intros log. exists []. rewrite app_nil_r. split; constructor. Qed.

Lemma stays_bind {A B} (i : nat) (m : M A) (k : A -> M B) :
  stays_with i m -> (forall a, stays_with i (k a)) ->
  stays_with i (bind m k).
Proof.
  intros Hm Hk log. unfold bind.
  destruct (Hm log) as (ev1 & E1 & F1).
  destruct (m log) as [[e|a] log1]; simpl in E1; subst log1.
  - exists ev1. split; [reflexivity | exact F1].
  - destruct (Hk a (log ++ ev1)) as (ev2 & E2 & F2).
    exists (ev1 ++ ev2). rewrite E2, app_assoc.
    split; [reflexivity | apply Forall_app; split; assumption].
Qed.

Lemma stays_one {A} (i : nat) (r : list event -> thrown + A) (e : event) :
  of_item i e -> stays_with i (fun log => (r log, log ++ [e])).
Proof.
  intros He log. exists [e]. split; [reflexivity|].
  constructor; [exact He | constructor].
Qed.

Lemma stays_streamed (i : nat) (response : jsvalue) :
  stays_with i (streamed this response).
Proof.
  intros log. exists []. rewrite streamed_log, app_nil_r.
  split; constructor.
Qed.

(** Whatever happens to item [i], the calls it makes are reads of its
    own parameters and requests. *)
Lemma try_item_log (apiKey : jsstring) (i : nat) :
  stays_with i (try_item this apiKey i).
Proof.
  unfold try_item.
  repeat (apply stays_bind;
          [apply (stays_one i (fun _ => _)); reflexivity | intros ?]).
  destruct (str_eqb _ _); [|apply stays_throw].
  destruct (Nat.eqb _ _); [apply stays_throw|].
  cbv zeta.
  match goal with
  | |- stays_with _ (if ?stream then _ else _) => destruct stream
  end; apply stays_bind;
    try (apply (stays_one i); exact I);
    intros response; [apply stays_streamed | apply stays_ret].
Qed.

End Item.

(** ** The payload *)

(** The payload is the [body] of the options, streaming or not. *)
Lemma options_sent_body (apiKey : jsstring) (c : configuration) :
  property (options_sent apiKey c) (lit "body") = payload c.
Proof. unfold options_sent. destruct (c_stream c); reflexivity. Qed.

Lemma payload_messages (c : configuration) :
  property (payload c) (lit "messages")
  = JArray (map role_and_content (c_messages c)).
Proof. reflexivity. Qed.

(** A projected message has the keys [role] and [content] and no other
    property. *)
Lemma role_and_content_other (message : IDataObject) (key : jsstring) :
  key <> lit "role" -> key <> lit "content" ->
  exists properties,
    role_and_content message = JObject properties
    /\ own_property properties key = None.
Proof.
  intros Hr Hc. eexists. split; [reflexivity|].
  cbn [own_property].
  assert (Er : str_eqb (lit "role") key = false)
    by (apply str_eqb_neq; congruence).
  assert (Ec : str_eqb (lit "content") key = false)
    by (apply str_eqb_neq; congruence).
  rewrite Er, Ec. reflexivity.
Qed.

(* ================================================================== *)
(** * The batch *)

Section Batch.

Variable this : Host.
Variable key : jsstring.
Variable log0 : list event.

Local Abbreviation before := (log_before this key log0).
Local Abbreviation result := (outcome this key log0).

Lemma log_before_S (k : nat) :
  try_item this key k (before k) = (result k, before (S k)).
Proof.
  unfold outcome. cbn [log_before].
  destruct (try_item this key k (log_before this key log0 k)); reflexivity.
Qed.

(** The loop as long as no failure stops it: one record for each item,
    in the order of the items. *)
Lemma for_items_run (n : nat) :
  forall i returnData,
    (forall k, i <= k < i + n ->
               continueOnFail this = true
               \/ exists item, result k = inr item) ->
    for_items this key n i returnData (before i)
    = (inr (returnData ++ map (fun k => settled k (result k)) (seq i n)),
       before (i + n)).
Proof.
  induction n as [|n IH]; intros i returnData H.
  - simpl. rewrite app_nil_r, Nat.add_0_r. reflexivity.
  - cbn [for_items seq map]. rewrite log_before_S.
    assert (Hi : i <= i < i + S n) by lia.
    assert (Hn : forall k, S i <= k < S i + n ->
                   continueOnFail this = true
                   \/ exists item, result k = inr item)
      by (intros k Hk; apply H; lia).
    replace (i + S n) with (S i + n) by lia.
    destruct (result i) as [e|item] eqn:E.
    + destruct (H i Hi) as [Hc|[item Hitem]]; [|congruence].
      rewrite Hc, (IH (S i) _ Hn), <- app_assoc. reflexivity.
    + rewrite (IH (S i) _ Hn), <- app_assoc. reflexivity.
Qed.

(** The loop without continue-on-fail, [m] items done and the next one
    failing: the failure leaves the loop, at the log of that item. *)
Lemma for_items_abort (m : nat) :
  forall n i returnData e,
    continueOnFail this = false ->
    m < n ->
    (forall k, i <= k < i + m -> exists item, result k = inr item) ->
    result (i + m) = inl e ->
    for_items this key n i returnData (before i)
    = (inl e, before (S (i + m))).
Proof.
  induction m as [|m IH]; intros n i returnData e Hc Hm Hok He;
    (destruct n as [|n]; [lia|]);
    cbn [for_items]; rewrite log_before_S.
  - rewrite Nat.add_0_r in *. rewrite He, Hc. reflexivity.
  - destruct (Hok i) as [item Hitem]; [lia|]. rewrite Hitem.
    replace (i + S m) with (S i + m) in * by lia.
    apply IH; [exact Hc | lia | | exact He].
    intros k Hk. apply Hok. lia.
Qed.

(** The calls made before item [k] is reached are calls for the items
    below [k]. *)
Lemma log_before_items (k : nat) :
  exists events,
    before k = log0 ++ events
    /\ Forall (fun e => exists j, j < k /\ of_item j e) events.
Proof.
  induction k as [|k (ev & E & F)].
  - exists []. cbn [log_before]. rewrite app_nil_r.
    split; constructor.
  - destruct (try_item_log this key k (before k)) as (ev' & E' & F').
    exists (ev ++ ev'). split.
    + change (before (S k)) with (snd (try_item this key k (before k))).
      rewrite E', E, app_assoc. reflexivity.
    + apply Forall_app. split.
      * eapply Forall_impl; [|exact F].
        intros e (j & Hj & Hof). exists j. split; [lia | exact Hof].
      * eapply Forall_impl; [|exact F'].
        intros e Hof. exists k. split; [lia | exact Hof].
Qed.

End Batch.

Lemma nth_error_map_seq {A} (f : nat -> A) (n k : nat) :
  k < n -> nth_error (map f (seq 0 n)) k = Some (f k).
Proof.
  intros H. rewrite nth_error_map, nth_error_seq.
  apply Nat.ltb_lt in H. rewrite H. reflexivity.
Qed.

(** [execute] once the credentials are there: the loop from item 0, on
    the log that has the read of the credentials. *)
Lemma execute_loop (this : Host) (c : ICredentials) (log : list event) :
  credentials_of this (lit "openRouterApi") = inr c ->
  execute this log
  = match for_items this (apiKey c) (length (getInputData this)) 0 []
            (log ++ [CredentialsRead (lit "openRouterApi")]) with
    | (inr returnData, log') => (inr [returnData], log')
    | (inl error, log') => (inl error, log')
    end.
Proof.
  intros H. unfold execute, bind, getCredentials. rewrite H. reflexivity.
Qed.

(** [execute] when no failure stops the loop. *)
Lemma execute_run (this : Host) (c : ICredentials) (log : list event) :
  let log0 := log ++ [CredentialsRead (lit "openRouterApi")] in
  let n := length (getInputData this) in
  credentials_of this (lit "openRouterApi") = inr c ->
  (forall k, k < n ->
             continueOnFail this = true
             \/ exists item, outcome this (apiKey c) log0 k = inr item) ->
  execute this log
  = (inr [map (fun k => settled k (outcome this (apiKey c) log0 k)) (seq 0 n)],
     log_before this (apiKey c) log0 n).
Proof.
  intros log0 n Hc H.
  rewrite (execute_loop this c log Hc).
  change (log ++ [CredentialsRead (lit "openRouterApi")])
    with (log_before this (apiKey c) log0 0).
  rewrite for_items_run by (intros k Hk; apply H; lia).
  reflexivity.
Qed.

(** No credentials, no loop. *)
Lemma execute_no_credentials (this : Host) (e : thrown) (log : list event) :
  credentials_of this (lit "openRouterApi") = inl e ->
  execute this log = (inl e, log ++ [CredentialsRead (lit "openRouterApi")]).
Proof.
  intros H. unfold execute, bind, getCredentials. rewrite H. reflexivity.
Qed.

(** Every call of the loop is a call for an item. *)
Lemma for_items_log (this : Host) (key : jsstring) (n : nat) :
  forall i returnData log,
  exists events,
    snd (for_items this key n i returnData log) = log ++ events
    /\ Forall (fun e => exists j, of_item j e) events.
Proof.
  induction n as [|n IH]; intros i returnData log.
  - exists []. simpl. rewrite app_nil_r. split; constructor.
  - cbn [for_items].
    destruct (try_item_log this key i log) as (ev & E & F).
    assert (F' : Forall (fun e => exists j, of_item j e) ev)
      by (eapply Forall_impl; [|exact F]; intros e He; exists i; exact He).
    destruct (try_item this key i log) as [[e|item] log1];
      simpl in E; subst log1.
    + destruct (continueOnFail this).
      * destruct (IH (S i) (returnData ++ [error_item e i]) (log ++ ev))
          as (ev2 & E2 & F2).
        exists (ev ++ ev2). rewrite E2, app_assoc.
        split; [reflexivity | apply Forall_app; split; assumption].
      * exists ev. split; [reflexivity | exact F'].
    + destruct (IH (S i) (returnData ++ [item]) (log ++ ev))
        as (ev2 & E2 & F2).
      exists (ev ++ ev2). rewrite E2, app_assoc.
      split; [reflexivity | apply Forall_app; split; assumption].
Qed.

(* ================================================================== *)
(** * The properties of [execute] over a batch *)

(** C6. When the credentials are read and every item either succeeds or
    fails with continue-on-fail on, [execute] returns one list of records
    with exactly one record for each input item, the record at position
    [k] being the one of item [k]: its own record, or its error record. *)
Theorem execute_one_record_per_item
    (this : Host) (log : list event) (c : ICredentials) :
  let log0 := log ++ [CredentialsRead (lit "openRouterApi")] in
  let n := length (getInputData this) in
  credentials_of this (lit "openRouterApi") = inr c ->
  (forall k, k < n ->
             continueOnFail this = true
             \/ exists item, outcome this (apiKey c) log0 k = inr item) ->
  exists returnData,
    fst (execute this log) = inr [returnData]
    /\ length returnData = length (getInputData this)
    /\ forall k, k < n ->
         nth_error returnData k
         = Some (settled k (outcome this (apiKey c) log0 k)).
Proof.
  intros log0 n Hc H.
  rewrite (execute_run this c log Hc H).
  eexists. split; [reflexivity|]. split.
  - rewrite length_map, length_seq. reflexivity.
  - intros k Hk.
    exact (nth_error_map_seq
             (fun j => settled j (outcome this (apiKey c) log0 j)) _ _ Hk).
Qed.

Lemma execute_one_record_per_item_witness :
  credentials_of (Sample.three true) (lit "openRouterApi")
  = inr Sample.credentials
  /\ (forall k, k < 3 ->
        continueOnFail (Sample.three true) = true
        \/ exists item,
             outcome (Sample.three true) (lit "sk-1")
                     [CredentialsRead (lit "openRouterApi")] k = inr item)
  /\ exists returnData,
       fst (execute (Sample.three true) []) = inr [returnData]
       /\ length returnData = 3
       /\ forall k, k < 3 ->
            nth_error returnData k
            = Some (settled k (outcome (Sample.three true) (lit "sk-1")
                                 [CredentialsRead (lit "openRouterApi")] k)).
Proof.
  split; [reflexivity|]. split; [intros k _; left; reflexivity|].
  apply (execute_one_record_per_item (Sample.three true) []
           Sample.credentials).
  - reflexivity.
  - intros k _. left. reflexivity.
Defined.

(** C2. With continue-on-fail on, an item [k] whose processing fails with
    [e] gives exactly one record, at position [k] of as many records as
    there are items: [{json: {error: message}, pairedItem: {item: k}}],
    the message being that of [e] when [e] is an [Error] and
    [Unknown error occurred] otherwise; every other item has its own
    record at its own position, so the loop has gone on. For three items
    of which the second has no message: a record, the error record with
    [pairedItem.item = 1], a record. *)
Theorem continue_on_fail_error_record :
  (forall (this : Host) (log : list event) (c : ICredentials) (k : nat)
          (e : thrown),
      let log0 := log ++ [CredentialsRead (lit "openRouterApi")] in
      let n := length (getInputData this) in
      credentials_of this (lit "openRouterApi") = inr c ->
      continueOnFail this = true ->
      k < n ->
      outcome this (apiKey c) log0 k = inl e ->
      exists returnData,
        fst (execute this log) = inr [returnData]
        /\ length returnData = n
        /\ nth_error returnData k
           = Some {| json := JObject
                       [ (lit "error",
                           JString match e with
                                   | Error _ message => message
                                   | NotAnError _ =>
                                       lit "Unknown error occurred"
                                   end) ];
                     pairedItem := Some k |}
        /\ forall j, j < n ->
             nth_error returnData j
             = Some (settled j (outcome this (apiKey c) log0 j)))
  /\ fst (execute (Sample.three true) [])
     = inr [[ Sample.success 0;
              {| json := JObject
                   [ (lit "error",
                       JString (lit "At least one message is required")) ];
                 pairedItem := Some 1 |};
              Sample.success 2 ]].
Proof.
  split; [|vm_compute; reflexivity].
  intros this log c k e log0 n Hc Hcont Hk He.
  rewrite (execute_run this c log Hc) by (intros j _; left; exact Hcont).
  assert (R : forall j, j < n ->
            nth_error (map (fun j => settled j (outcome this (apiKey c) log0 j))
                           (seq 0 n)) j
            = Some (settled j (outcome this (apiKey c) log0 j)))
    by (intros j Hj; exact (nth_error_map_seq _ _ _ Hj)).
  exists (map (fun j => settled j (outcome this (apiKey c) log0 j)) (seq 0 n)).
  split; [reflexivity|]. split; [|split; [|exact R]].
  - rewrite length_map, length_seq. reflexivity.
  - rewrite (R k Hk), He. reflexivity.
Qed.

Lemma continue_on_fail_error_record_witness :
  credentials_of (Sample.three true) (lit "openRouterApi")
  = inr Sample.credentials
  /\ continueOnFail (Sample.three true) = true
  /\ 1 < length (getInputData (Sample.three true))
  /\ outcome (Sample.three true) (lit "sk-1")
             [CredentialsRead (lit "openRouterApi")] 1
     = inl Sample.no_message
  /\ exists returnData,
       fst (execute (Sample.three true) []) = inr [returnData]
       /\ length returnData = 3
       /\ nth_error returnData 1
          = Some {| json := JObject
                      [ (lit "error",
                          JString (lit "At least one message is required")) ];
                    pairedItem := Some 1 |}
       /\ forall j, j < 3 ->
            nth_error returnData j
            = Some (settled j (outcome (Sample.three true) (lit "sk-1")
                                 [CredentialsRead (lit "openRouterApi")] j)).
Proof.
  split; [reflexivity|]. split; [reflexivity|].
  split; [simpl; lia|]. split; [vm_compute; reflexivity|].
  apply (proj1 continue_on_fail_error_record (Sample.three true) []
           Sample.credentials 1 Sample.no_message).
  - reflexivity.
  - reflexivity.
  - simpl; lia.
  - vm_compute; reflexivity.
Defined.

(** C3. With continue-on-fail off, when the items before [k] succeed and
    item [k] fails with [e], [execute] throws [e] itself and returns no
    record; its log stops with the calls of item [k], and no parameter of
    a later item is ever read. For three items of which the second has no
    message: the failure of the second, after one request only. *)
Theorem fail_aborts_batch :
  (forall (this : Host) (log : list event) (c : ICredentials) (k : nat)
          (e : thrown),
      let log0 := log ++ [CredentialsRead (lit "openRouterApi")] in
      credentials_of this (lit "openRouterApi") = inr c ->
      continueOnFail this = false ->
      k < length (getInputData this) ->
      (forall j, j < k ->
                 exists item, outcome this (apiKey c) log0 j = inr item) ->
      outcome this (apiKey c) log0 k = inl e ->
      execute this log = (inl e, log_before this (apiKey c) log0 (S k))
      /\ exists events,
           snd (execute this log) = log0 ++ events
           /\ Forall (fun ev => exists j, j <= k /\ of_item j ev) events)
  /\ execute (Sample.three false) []
     = (inl Sample.no_message,
        [CredentialsRead (lit "openRouterApi")]
        ++ parameter_reads 0
        ++ [Requested (options_sent (lit "sk-1")
                         (Sample.configuration_of 0 [Sample.hello] false))]
        ++ parameter_reads 1).
Proof.
  split; [|vm_compute; reflexivity].
  intros this log c k e log0 Hc Hcont Hk Hok He.
  assert (E : execute this log
              = (inl e, log_before this (apiKey c) log0 (S k))).
  { rewrite (execute_loop this c log Hc).
    change (log ++ [CredentialsRead (lit "openRouterApi")])
      with (log_before this (apiKey c) log0 0).
    rewrite (for_items_abort this (apiKey c) log0 k _ 0 [] e);
      try assumption; try reflexivity.
    intros j Hj. apply Hok. lia. }
  split; [exact E|].
  rewrite E. cbn [snd].
  destruct (log_before_items this (apiKey c) log0 (S k)) as (ev & Eev & F).
  exists ev. split; [exact Eev|].
  eapply Forall_impl; [|exact F].
  intros a (j & Hj & Hof). exists j. split; [lia | exact Hof].
Qed.

Lemma fail_aborts_batch_witness :
  credentials_of (Sample.three false) (lit "openRouterApi")
  = inr Sample.credentials
  /\ continueOnFail (Sample.three false) = false
  /\ 1 < length (getInputData (Sample.three false))
  /\ outcome (Sample.three false) (lit "sk-1")
             [CredentialsRead (lit "openRouterApi")] 0
     = inr (Sample.success 0)
  /\ outcome (Sample.three false) (lit "sk-1")
             [CredentialsRead (lit "openRouterApi")] 1
     = inl Sample.no_message
  /\ fst (execute (Sample.three false) []) = inl Sample.no_message.
Proof.
  split; [reflexivity|]. split; [reflexivity|]. split; [simpl; lia|].
  split; [vm_compute; reflexivity|]. split; [vm_compute; reflexivity|].
  destruct (proj1 fail_aborts_batch (Sample.three false) []
              Sample.credentials 1 Sample.no_message) as [E _].
  - reflexivity.
  - reflexivity.
  - simpl; lia.
  - intros j Hj. exists (Sample.success 0).
    replace j with 0 by lia. vm_compute; reflexivity.
  - vm_compute; reflexivity.
  - rewrite E. reflexivity.
Defined.

(* ================================================================== *)
(** * The credentials *)

(** C9, as the code has it. [execute] reads the credentials once for the
    whole batch, before the first item: the log of a run is the log it
    started on, then the read of [openRouterApi], then calls none of
    which reads credentials. *)
Theorem credentials_read_once (this : Host) (log : list event) :
  exists rest,
    snd (execute this log)
    = log ++ CredentialsRead (lit "openRouterApi") :: rest
    /\ Forall (fun e => is_credentials_read e = false) rest.
Proof.
  destruct (credentials_of this (lit "openRouterApi")) as [e|c] eqn:Hc.
  - rewrite (execute_no_credentials this e log Hc).
    exists []. split; [reflexivity | constructor].
  - rewrite (execute_loop this c log Hc).
    destruct (for_items_log this (apiKey c) (length (getInputData this)) 0 []
                (log ++ [CredentialsRead (lit "openRouterApi")]))
      as (ev & E & F).
    exists ev. split.
    + destruct (for_items _ _ _ _ _ _) as [[e|rs] log']; simpl in E |- *;
        rewrite E, <- app_assoc; reflexivity.
    + eapply Forall_impl; [|exact F].
      intros a (j & Hj). destruct a; simpl in *; tauto.
Qed.

(** C9, as the specification has it, fails: a batch of three items is
    run with a single read of the credentials, not one for each item. *)
Lemma credentials_not_read_per_item :
  length (filter is_credentials_read (snd (execute (Sample.three true) [])))
  <> length (getInputData (Sample.three true)).
Proof. vm_compute. discriminate. Qed.

(* ================================================================== *)
(** * The properties of one item *)




(** C4. An item whose parameters are all read, with the operation
    [chatCompletion] and a message at least, makes one request, the last
    of its calls. The [body] of its options has exactly the keys [model],
    [messages], [max_tokens], [temperature], [top_p], [frequency_penalty],
    [presence_penalty] and [stream], each with the configured value, and
    [messages] is an array with one entry for each configured message, in
    the same order, whose [role] and [content] are those of the message. *)
Theorem payload_fields_and_messages
    (this : Host) (apiKey : jsstring) (i : nat) (c : configuration)
    (log : list event) :
  configured this i c ->
  c_operation c = lit "chatCompletion" ->
  c_messages c <> [] ->
  exists options payload messages,
    snd (try_item this apiKey i log)
    = log ++ parameter_reads i ++ [Requested options]
    /\ property options (lit "body") = payload
    /\ keys payload
       = [ lit "model"; lit "messages"; lit "max_tokens"; lit "temperature";
           lit "top_p"; lit "frequency_penalty"; lit "presence_penalty";
           lit "stream" ]
    /\ property payload (lit "model") = JString (c_model c)
    /\ property payload (lit "max_tokens") = JNumber (c_max_tokens c)
    /\ property payload (lit "temperature") = JNumber (c_temperature c)
    /\ property payload (lit "top_p") = JNumber (c_top_p c)
    /\ property payload (lit "frequency_penalty")
       = JNumber (c_frequency_penalty c)
    /\ property payload (lit "presence_penalty")
       = JNumber (c_presence_penalty c)
    /\ property payload (lit "stream") = JBool (c_stream c)
    /\ property payload (lit "messages") = JArray messages
    /\ length messages = length (c_messages c)
    /\ forall k message,
         nth_error (c_messages c) k = Some message ->
         exists entry,
           nth_error messages k = Some entry
           /\ property entry (lit "role") = field message (lit "role")
           /\ property entry (lit "content") = field message (lit "content").
Proof.
  intros H Hop Hm.
  exists (options_sent apiKey c), (payload c),
         (map role_and_content (c_messages c)).
  split; [apply (try_item_request_log this apiKey i c log H Hop Hm)|].
  split; [apply options_sent_body|].
  repeat (split; [reflexivity|]).
  split; [apply length_map|].
  intros k message Hk. exists (role_and_content message).
  split; [|split; reflexivity].
  rewrite nth_error_map, Hk. reflexivity.
Qed.

Lemma payload_fields_and_messages_witness :
  configured (Sample.three true) 0
    (Sample.configuration_of 0 [Sample.hello] false)
  /\ exists options messages,
       snd (try_item (Sample.three true) (lit "sk-1") 0 [])
       = parameter_reads 0 ++ [Requested options]
       /\ keys (property options (lit "body"))
          = [ lit "model"; lit "messages"; lit "max_tokens";
              lit "temperature"; lit "top_p"; lit "frequency_penalty";
              lit "presence_penalty"; lit "stream" ]
       /\ property (property options (lit "body")) (lit "messages")
          = JArray messages
       /\ length messages = 1.
Proof.
  assert (H : configured (Sample.three true) 0
                (Sample.configuration_of 0 [Sample.hello] false))
    by (repeat split).
  split; [exact H|].
  destruct (payload_fields_and_messages (Sample.three true) (lit "sk-1") 0
              _ [] H)
    as (options & payload & messages & E & B & K & _ & _ & _ & _ & _ & _ & _
        & M & L & _).
  - reflexivity.
  - discriminate.
  - exists options, messages. rewrite B.
    split; [exact E|]. split; [exact K|]. split; [exact M | exact L].
Defined.

Lemma Forall2_map_of {A B} (P : A -> B -> Prop) (f : A -> B) (l : list A) :
  (forall x, P x (f x)) -> Forall2 P l (map f l).
Proof. intros H. induction l; simpl; constructor; auto. Qed.

(** C10. In the request of an item, every entry of the [messages] of
    the payload is the configured message at its place cut down to the
    two keys [role] and [content]: it has these two keys and no others,
    its [role] and its [content] are those of the message, and a key
    that is neither is not a property of the entry, whatever the
    configured message had under it. *)
Theorem messages_keep_role_and_content_only
    (this : Host) (apiKey : jsstring) (i : nat) (c : configuration)
    (log : list event) :
  configured this i c ->
  c_operation c = lit "chatCompletion" ->
  c_messages c <> [] ->
  exists options messages,
    snd (try_item this apiKey i log)
    = log ++ parameter_reads i ++ [Requested options]
    /\ property (property options (lit "body")) (lit "messages")
       = JArray messages
    /\ Forall2
         (fun (message : IDataObject) (entry : jsvalue) =>
            keys entry = [lit "role"; lit "content"]
            /\ property entry (lit "role") = field message (lit "role")
            /\ property entry (lit "content") = field message (lit "content")
            /\ forall key,
                 key <> lit "role" -> key <> lit "content" ->
                 exists properties,
                   entry = JObject properties
                   /\ own_property properties key = None)
         (c_messages c) messages.
Proof.
  intros H Hop Hm.
  exists (options_sent apiKey c), (map role_and_content (c_messages c)).
  split; [apply (try_item_request_log this apiKey i c log H Hop Hm)|].
  split; [rewrite options_sent_body; apply payload_messages|].
  apply Forall2_map_of. intros message.
  split; [reflexivity|]. split; [reflexivity|]. split; [reflexivity|].
  intros key Hr Hc. apply role_and_content_other; assumption.
Qed.

Lemma messages_keep_role_and_content_only_witness :
  configured (Sample.three true) 0
    (Sample.configuration_of 0 [Sample.hello] false)
  /\ own_property Sample.hello (lit "name") = Some (JString (lit "ann"))
  /\ exists options entry,
       snd (try_item (Sample.three true) (lit "sk-1") 0 [])
       = parameter_reads 0 ++ [Requested options]
       /\ property (property options (lit "body")) (lit "messages")
          = JArray [entry]
       /\ property entry (lit "role") = JString (lit "user")
       /\ property entry (lit "content") = JString (lit "hello")
       /\ exists properties,
            entry = JObject properties
            /\ own_property properties (lit "name") = None.
Proof.
  assert (H : configured (Sample.three true) 0
                (Sample.configuration_of 0 [Sample.hello] false))
    by (repeat split).
  split; [exact H|]. split; [reflexivity|].
  destruct (messages_keep_role_and_content_only (Sample.three true)
              (lit "sk-1") 0 _ [] H)
    as (options & messages & E & M & F).
  - reflexivity.
  - discriminate.
  - simpl in F.
    inversion F as [|message entry l l' (_ & Hrole & Hcontent & Hk) Hnil];
      subst.
    inversion Hnil; subst.
    exists options, entry.
    split; [exact E|]. split; [exact M|].
    split; [exact Hrole|]. split; [exact Hcontent|].
    apply Hk; vm_compute; discriminate.
Defined.

(* ================================================================== *)
(** * The streamed response *)

(** C1. A streaming item whose request is answered by the text [text].
    The chunks are the pieces of [text] between blank lines that have a
    code unit other than white space, in their order; the residual of a
    chunk is the chunk without its first [data: ]. When every residual is
    a JSON text, the record of the item is
    [{json: {streamedResponse: values}}] with the values of the residuals
    in the order of the chunks. When some residual is not, the item
    fails with the [SyntaxError] of the first such residual, and has no
    record. For the two frames [data: {"a":1}] and [data: {"a":2}], each
    followed by a blank line, the values are [{"a":1}] and [{"a":2}], two
    of them; with the frame [data: [DONE]] after these the item fails. *)
Theorem streamed_response_record :
  (forall (this : Host) (apiKey : jsstring) (i : nat) (c : configuration)
          (log : list event) (text : jsstring),
      configured this i c ->
      c_operation c = lit "chatCompletion" ->
      c_messages c <> [] ->
      c_stream c = true ->
      response_to this (log ++ parameter_reads i) (options_sent apiKey c)
      = inr (JString text) ->
      chunks text = filter has_text (split text (LF ++ LF))
      /\ (forall values,
            Forall2 (fun chunk v => JSON_text (residual chunk) = Some v)
                    (chunks text) values ->
            fst (try_item this apiKey i log)
            = inr {| json := JObject [ (lit "streamedResponse",
                                        JArray values) ];
                     pairedItem := None |})
      /\ (forall before chunk after values,
            chunks text = before ++ chunk :: after ->
            Forall2 (fun chunk v => JSON_text (residual chunk) = Some v)
                    before values ->
            JSON_text (residual chunk) = None ->
            fst (try_item this apiKey i log)
            = inl (Error SyntaxError
                     (engine_message this (BadJSON (residual chunk))))))
  /\ (forall a b,
        (forall a1 a2, a = a1 ++ a2 -> a2 <> [] ->
                       starts_with (lit "data: ") (a2 ++ lit "data: " ++ b)
                       = false) ->
        residual (a ++ lit "data: " ++ b) = a ++ b)
  /\ fst (execute (Sample.streaming Sample.two_frames) [])
     = inr [[ {| json := JObject
                   [ (lit "streamedResponse",
                       JArray [ JObject [ (lit "a", JNumber (Int 1)) ];
                                JObject [ (lit "a", JNumber (Int 2)) ] ]) ];
                 pairedItem := None |} ]]
  /\ fst (execute (Sample.streaming Sample.frames_and_done) [])
     = inl (Error SyntaxError (lit "Unexpected token")).
Proof.
  split; [|split; [|split; vm_compute; reflexivity]].
  - intros this apiKey i c log text H Hop Hm Hs Hr.
    assert (E : try_item this apiKey i log
                = streamed this (JString text)
                    (log ++ parameter_reads i
                     ++ [Requested (options_sent apiKey c)])).
    { rewrite (try_item_request this apiKey i c log H Hop Hm).
      cbv zeta. rewrite Hr, Hs, <- app_assoc. reflexivity. }
    split; [|split].
    + unfold chunks. apply filter_ext. intros chunk. apply trim_not_empty.
    + intros values Hv. rewrite E. unfold streamed, bind.
      rewrite (mapM_parse_ok this _ _ _ Hv). reflexivity.
    + intros before chunk after values Hc Hv Hn. rewrite E.
      unfold streamed, bind.
      rewrite Hc, (mapM_parse_fail this _ _ _ _ _ Hv Hn). reflexivity.
  - intros a b H. unfold residual.
    apply (replace_first (lit "data: ") [] a b H).
Qed.

Lemma streamed_response_record_witness :
  configured (Sample.streaming Sample.two_frames) 0
    (Sample.configuration_of 0 [Sample.hello] true)
  /\ response_to (Sample.streaming Sample.two_frames)
       ([] ++ parameter_reads 0)
       (options_sent (lit "sk-1")
          (Sample.configuration_of 0 [Sample.hello] true))
     = inr (JString Sample.two_frames)
  /\ length (chunks Sample.two_frames) = 2
  /\ fst (try_item (Sample.streaming Sample.two_frames) (lit "sk-1") 0 [])
     = inr {| json := JObject
                [ (lit "streamedResponse",
                    JArray [ JObject [ (lit "a", JNumber (Int 1)) ];
                             JObject [ (lit "a", JNumber (Int 2)) ] ]) ];
              pairedItem := None |}.
Proof.
  set (this := Sample.streaming Sample.two_frames).
  set (c := Sample.configuration_of 0 [Sample.hello] true).
  assert (H : configured this 0 c) by (repeat split).
  split; [exact H|]. split; [reflexivity|]. split; [vm_compute; reflexivity|].
  destruct (proj1 streamed_response_record this (lit "sk-1") 0 c []
              Sample.two_frames H)
    as (_ & Hok & _).
  - reflexivity.
  - discriminate.
  - reflexivity.
  - reflexivity.
  - apply Hok.
    let cs := eval vm_compute in (chunks Sample.two_frames) in
    change (chunks Sample.two_frames) with cs.
    repeat (constructor; [vm_compute; reflexivity|]). constructor.
Defined.

(* ================================================================== *)
(** * The model list *)

Section Models.

Variable this : Host.

Lemma member_readable (v : jsvalue) (key : jsstring) (log : list event) :
  readable v -> member this v key log = (inr (property v key), log).
Proof. intros [Hu Hn]. destruct v; try reflexivity; congruence. Qed.

Lemma member_unreadable (v : jsvalue) (key : jsstring) (log : list event) :
  ~ readable v ->
  member this v key log
  = (inl (Error TypeError (engine_message this (BadMember v key))), log).
Proof.
  intros H. destruct v; try reflexivity;
    exfalso; apply H; split; discriminate.
Qed.

(** The options of a list of models that can all be read. *)
Lemma mapM_option_of_model (models : list jsvalue) (log : list event) :
  Forall readable models ->
  mapM (option_of_model this) models log
  = (inr (map (fun model =>
                 {| name := property model (lit "id");
                    value := property model (lit "id");
                    description := property model (lit "description") |})
              models),
     log).
Proof.
  induction 1 as [|model models Hm _ IH]; [reflexivity|].
  cbn [mapM map]. unfold bind at 1. unfold option_of_model at 1.
  unfold bind at 1. rewrite (member_readable _ _ _ Hm).
  unfold bind at 1. rewrite (member_readable _ _ _ Hm).
  unfold ret at 1. unfold bind at 1. rewrite IH. reflexivity.
Qed.

(** [getModels] once the credentials are there: what the [try] gives,
    and what the [catch] makes of a failure. *)
Lemma getModels_try (c : ICredentials) (log : list event) :
  credentials_of this (lit "openRouterApi") = inr c ->
  getModels this log
  = let log1 := log ++ [CredentialsRead (lit "openRouterApi")] in
    let options := models_requestOptions (apiKey c) in
    let log2 := log1 ++ [Requested options] in
    let failed (message : jsstring) :=
      (inl (NodeOperationError this (getNode this)
              (lit "Failed to load models from OpenRouter API: "
               ++ message)), log2) in
    match response_to this log1 options with
    | inl (Error _ message) => failed message
    | inl (NotAnError _) =>
        (inl (NodeOperationError this (getNode this)
                (lit "Failed to load models from OpenRouter API: Unknown error")),
         log2)
    | inr response =>
        match response with
        | JUndefined | JNull =>
            failed (engine_message this (BadMember response (lit "data")))
        | _ =>
            match property response (lit "data") with
            | JArray models =>
                match mapM (option_of_model this) models log2 with
                | (inr options, log') => (inr options, log')
                | (inl (Error _ message), log') =>
                    (inl (NodeOperationError this (getNode this)
                            (lit "Failed to load models from OpenRouter API: "
                             ++ message)), log')
                | (inl (NotAnError _), log') =>
                    (inl (NodeOperationError this (getNode this)
                            (lit "Failed to load models from OpenRouter API: Unknown error")),
                     log')
                end
            | _ =>
                failed (descriptive_message this
                          (lit "Invalid response format from OpenRouter API"))
            end
        end
    end.
Proof.
  intros H. unfold getModels, bind at 1, getCredentials. rewrite H.
  cbv zeta. unfold try_catch, bind at 1, helpers_request.
  destruct (response_to this _ _) as [[cls message|v]|response];
    try reflexivity.
  destruct response; try reflexivity;
    unfold bind, member;
    match goal with
    | |- context [property ?r ?k] => destruct (property r k); try reflexivity
    end.
  all: unfold ret at 1; cbv beta iota;
    match goal with
    | |- context [mapM ?f ?xs ?l] =>
        destruct (mapM f xs l) as [[[cls message|v]|options] log']
    end; reflexivity.
Qed.

End Models.

(** C7. When the answer to the request for the models has an array under
    [data] whose entries are neither [undefined] nor [null], [getModels]
    returns one option for each entry, in the order of the array: the
    entry's [id] as [name] and as [value], its [description] as
    [description]. So [{"data":[{"id":"m1","description":"d1"}]}] gives
    [[{name: "m1", value: "m1", description: "d1"}]]. *)
Theorem models_become_options :
  (forall (this : Host) (log : list event) (c : ICredentials)
          (response : jsvalue) (models : list jsvalue),
      credentials_of this (lit "openRouterApi") = inr c ->
      response_to this (log ++ [CredentialsRead (lit "openRouterApi")])
                  (models_requestOptions (apiKey c))
      = inr response ->
      property response (lit "data") = JArray models ->
      Forall readable models ->
      fst (getModels this log)
      = inr (map (fun model =>
                    {| name := property model (lit "id");
                       value := property model (lit "id");
                       description := property model (lit "description") |})
                 models))
  /\ fst (getModels (Sample.listing (inr Sample.one_model)) [])
     = inr [ {| name := JString (lit "m1");
                value := JString (lit "m1");
                description := JString (lit "d1") |} ].
Proof.
  split; [|vm_compute; reflexivity].
  intros this log c response models Hc Hr Hd Hm.
  rewrite (getModels_try this c log Hc). cbv zeta. rewrite Hr.
  destruct response; try discriminate Hd; rewrite Hd;
    rewrite (mapM_option_of_model this _ _ Hm); reflexivity.
Qed.

Lemma models_become_options_witness :
  credentials_of (Sample.listing (inr Sample.one_model)) (lit "openRouterApi")
  = inr Sample.credentials
  /\ property Sample.one_model (lit "data")
     = JArray [ JObject [ (lit "id", JString (lit "m1"));
                          (lit "description", JString (lit "d1")) ] ]
  /\ fst (getModels (Sample.listing (inr Sample.one_model)) [])
     = inr [ {| name := JString (lit "m1");
                value := JString (lit "m1");
                description := JString (lit "d1") |} ].
Proof.
  split; [reflexivity|]. split; [reflexivity|].
  rewrite (proj1 models_become_options
             (Sample.listing (inr Sample.one_model)) [] Sample.credentials
             Sample.one_model
             [ JObject [ (lit "id", JString (lit "m1"));
                         (lit "description", JString (lit "d1")) ] ]).
  - reflexivity.
  - reflexivity.
  - reflexivity.
  - reflexivity.
  - constructor; [split; discriminate | constructor].
Defined.




(* ================================================================== *)
(** * Further properties of one item *)

Section Reads.

Variable this : Host.

(** What was read is what the host has configured. *)
Lemma read_all_configured (i : nat) (c : configuration) :
  read_all this i = inr c -> configured this i c.
Proof.
  unfold read_all, configured.
  destruct (string_parameter this (lit "operation") i); [discriminate|].
  destruct (string_parameter this (lit "model") i); [discriminate|].
  destruct (match objects_parameter this _ i with Some _ => _ | None => _ end);
    [discriminate|].
  destruct (number_parameter this (lit "max_tokens") i); [discriminate|].
  destruct (number_parameter this (lit "temperature") i); [discriminate|].
  destruct (number_parameter this (lit "top_p") i); [discriminate|].
  destruct (number_parameter this (lit "frequency_penalty") i);
    [discriminate|].
  destruct (number_parameter this (lit "presence_penalty") i);
    [discriminate|].
  destruct (boolean_parameter this (lit "stream") i); [discriminate|].
  intros H; inversion H; subst; simpl. repeat split.
Qed.

Lemma configured_read_all (i : nat) (c : configuration) :
  configured this i c -> read_all this i = inr c.
Proof.
  intros (H1 & H2 & H3 & H4 & H5 & H6 & H7 & H8 & H9).
  unfold read_all. rewrite H1, H2, H3, H4, H5, H6, H7, H8, H9.
  destruct c; reflexivity.
Qed.

(** A read that fails ends the item there. *)
Lemma read_all_failed (apiKey : jsstring) (i j : nat) (e : thrown)
    (log : list event) :
  read_all this i = inl (e, j) ->
  try_item this apiKey i log
  = (inl e, log ++ firstn (S j) (parameter_reads i)).
Proof.
  unfold read_all.
  cbv beta iota delta
    [try_item bind getNodeParameter_string getNodeParameter_number
     getNodeParameter_boolean getNodeParameter_objects].
  destruct (string_parameter this (lit "operation") i);
    [intros H; inversion H; reflexivity|].
  destruct (string_parameter this (lit "model") i);
    [intros H; inversion H; subst; cbn [firstn parameter_reads];
     rewrite <- !app_assoc; reflexivity|].
  destruct (match objects_parameter this _ i with Some _ => _ | None => _ end);
    [intros H; inversion H; subst; cbn [firstn parameter_reads];
     rewrite <- !app_assoc; reflexivity|].
  destruct (number_parameter this (lit "max_tokens") i);
    [intros H; inversion H; subst; cbn [firstn parameter_reads];
     rewrite <- !app_assoc; reflexivity|].
  destruct (number_parameter this (lit "temperature") i);
    [intros H; inversion H; subst; cbn [firstn parameter_reads];
     rewrite <- !app_assoc; reflexivity|].
  destruct (number_parameter this (lit "top_p") i);
    [intros H; inversion H; subst; cbn [firstn parameter_reads];
     rewrite <- !app_assoc; reflexivity|].
  destruct (number_parameter this (lit "frequency_penalty") i);
    [intros H; inversion H; subst; cbn [firstn parameter_reads];
     rewrite <- !app_assoc; reflexivity|].
  destruct (number_parameter this (lit "presence_penalty") i);
    [intros H; inversion H; subst; cbn [firstn parameter_reads];
     rewrite <- !app_assoc; reflexivity|].
  destruct (boolean_parameter this (lit "stream") i);
    [intros H; inversion H; subst; cbn [firstn parameter_reads];
     rewrite <- !app_assoc; reflexivity|].
  discriminate.
Qed.

Lemma read_all_position (i j : nat) (e : thrown) :
  read_all this i = inl (e, j) -> j < 9.
Proof.
  unfold read_all.
  repeat match goal with
         | |- context [match ?x with inl _ => _ | inr _ => _ end] =>
             destruct x; [intros H; inversion H; lia|]
         end.
  discriminate.
Qed.

(** The two ways an item can go: it fails before any request, at a read
    or at one of the two checks, or it makes its one request, the last of
    its calls. *)
Lemma try_item_shape (apiKey : jsstring) (i : nat) (log : list event) :
  (exists e j,
      j <= 9
      /\ try_item this apiKey i log
         = (inl e, log ++ firstn j (parameter_reads i)))
  \/ (exists c,
        configured this i c
        /\ c_operation c = lit "chatCompletion"
        /\ c_messages c <> []
        /\ snd (try_item this apiKey i log)
           = log ++ parameter_reads i ++ [Requested (options_sent apiKey c)]).
Proof.
  destruct (read_all this i) as [[e j]|c] eqn:E.
  - left. exists e, (S j). split.
    + pose proof (read_all_position i j e E). lia.
    + apply read_all_failed, E.
  - apply read_all_configured in E.
    destruct (str_eqb (c_operation c) (lit "chatCompletion")) eqn:Hop.
    + apply str_eqb_eq in Hop.
      destruct (c_messages c) as [|m ms] eqn:Hm.
      * left. eexists. exists 9. split; [lia|].
        apply (try_item_no_message this apiKey i c log E Hop Hm).
      * right. exists c. split; [exact E|]. split; [exact Hop|].
        assert (Hne : c_messages c <> []) by (rewrite Hm; discriminate).
        split; [exact Hne|].
        apply (try_item_request_log this apiKey i c log E Hop Hne).
    + apply str_eqb_neq in Hop. left. eexists. exists 9. split; [lia|].
      apply (try_item_unsupported this apiKey i c log E Hop).
Qed.

End Reads.

(** X1. Without streaming, the answer to the request is the record of
    the item as it stands, whatever value it is, with no [pairedItem];
    the request is the one call after the nine reads. *)
Theorem response_returned_verbatim
    (this : Host) (apiKey : jsstring) (i : nat) (c : configuration)
    (log : list event) (response : jsvalue) :
  configured this i c ->
  c_operation c = lit "chatCompletion" ->
  c_messages c <> [] ->
  c_stream c = false ->
  response_to this (log ++ parameter_reads i)
              (JObject (requestOptions apiKey (payload c)))
  = inr response ->
  try_item this apiKey i log
  = (inr {| json := response; pairedItem := None |},
     log ++ parameter_reads i
     ++ [Requested (JObject (requestOptions apiKey (payload c)))]).
Proof.
  intros H Hop Hm Hs Hr.
  rewrite (try_item_request this apiKey i c log H Hop Hm). cbv zeta.
  unfold options_sent. rewrite Hs, Hr, <- app_assoc. reflexivity.
Qed.

Lemma response_returned_verbatim_witness :
  configured (Sample.three true) 0
    (Sample.configuration_of 0 [Sample.hello] false)
  /\ fst (try_item (Sample.three true) (lit "sk-1") 0 [])
     = inr (Sample.success 0).
Proof.
  assert (H : configured (Sample.three true) 0
                (Sample.configuration_of 0 [Sample.hello] false))
    by (repeat split).
  split; [exact H|].
  rewrite (response_returned_verbatim (Sample.three true) (lit "sk-1") 0
             _ [] (json (Sample.success 0)) H).
  - reflexivity.
  - reflexivity.
  - discriminate.
  - reflexivity.
  - reflexivity.
Defined.

(** X2. When the request is rejected, streaming or not, the item fails
    with the very value the request threw, after its one request; no
    record is made of it. *)
Theorem rejected_request_fails_item
    (this : Host) (apiKey : jsstring) (i : nat) (c : configuration)
    (log : list event) (e : thrown) :
  configured this i c ->
  c_operation c = lit "chatCompletion" ->
  c_messages c <> [] ->
  response_to this (log ++ parameter_reads i) (options_sent apiKey c)
  = inl e ->
  try_item this apiKey i log
  = (inl e,
     log ++ parameter_reads i ++ [Requested (options_sent apiKey c)]).
Proof.
  intros H Hop Hm Hr.
  rewrite (try_item_request this apiKey i c log H Hop Hm). cbv zeta.
  rewrite Hr, <- app_assoc. reflexivity.
Qed.

Lemma rejected_request_fails_item_witness :
  configured (Sample.host 1 [] true false More.refuse) 0
    (Sample.configuration_of 0 [Sample.hello] true)
  /\ fst (try_item (Sample.host 1 [] true false More.refuse) (lit "sk-1") 0 [])
     = inl More.refused.
Proof.
  assert (H : configured (Sample.host 1 [] true false More.refuse) 0
                (Sample.configuration_of 0 [Sample.hello] true))
    by (repeat split).
  split; [exact H|].
  rewrite (rejected_request_fails_item
             (Sample.host 1 [] true false More.refuse) (lit "sk-1") 0
             _ [] More.refused H).
  - reflexivity.
  - reflexivity.
  - discriminate.
  - reflexivity.
Defined.

Lemma filter_firstn_none {A} (f : A -> bool) (l : list A) :
  Forall (fun x => f x = false) l ->
  forall k, filter f (firstn k l) = [].
Proof.
  induction 1 as [|x l Hx _ IH]; intros [|k]; simpl; try reflexivity.
  rewrite Hx. apply IH.
Qed.

(** X3. When a parameter cannot be read, the item fails with the failure
    of that read: the parameters after it are not read, neither check is
    made and no request is sent. So an operation that is not supported
    is only reported once all nine parameters have been read. *)
Theorem failed_read_fails_item
    (this : Host) (apiKey : jsstring) (i j : nat) (e : thrown)
    (log : list event) :
  read_all this i = inl (e, j) ->
  try_item this apiKey i log
  = (inl e, log ++ firstn (S j) (parameter_reads i))
  /\ requests (snd (try_item this apiKey i log)) = requests log.
Proof.
  intros H. rewrite (read_all_failed this apiKey i j e log H).
  split; [reflexivity|].
  cbn [snd]. unfold requests. rewrite filter_app.
  rewrite (filter_firstn_none is_request); [rewrite app_nil_r; reflexivity|].
  unfold parameter_reads. repeat constructor.
Qed.

Lemma failed_read_fails_item_witness :
  read_all (More.numberless Sample.embeddings) 0
  = inl (Error OtherError (lit "Could not get parameter"), 3)
  /\ try_item (More.numberless Sample.embeddings) (lit "sk-1") 0 []
     = (inl (Error OtherError (lit "Could not get parameter")),
        [ ParameterRead (lit "operation") 0;
          ParameterRead (lit "model") 0;
          ParameterRead (lit "messages.messagesValues") 0;
          ParameterRead (lit "max_tokens") 0 ]).
Proof.
  split; [reflexivity|].
  destruct (failed_read_fails_item (More.numberless Sample.embeddings)
              (lit "sk-1") 0 3
              (Error OtherError (lit "Could not get parameter")) [])
    as [E _].
  - reflexivity.
  - rewrite E. reflexivity.
Defined.

(** X4. A streaming item whose answer is not a string fails with a
    [TypeError], once the request is made: there is no [split] to call. *)
Theorem streamed_answer_must_be_text
    (this : Host) (apiKey : jsstring) (i : nat) (c : configuration)
    (log : list event) (response : jsvalue) :
  configured this i c ->
  c_operation c = lit "chatCompletion" ->
  c_messages c <> [] ->
  c_stream c = true ->
  response_to this (log ++ parameter_reads i) (options_sent apiKey c)
  = inr response ->
  (forall text, response <> JString text) ->
  try_item this apiKey i log
  = (inl (Error TypeError
            (engine_message this (BadMember response (lit "split")))),
     log ++ parameter_reads i ++ [Requested (options_sent apiKey c)]).
Proof.
  intros H Hop Hm Hs Hr Hn.
  rewrite (try_item_request this apiKey i c log H Hop Hm). cbv zeta.
  rewrite Hr, Hs, <- app_assoc.
  destruct response; try reflexivity.
  exfalso. apply (Hn s). reflexivity.
Qed.

Lemma streamed_answer_must_be_text_witness :
  configured (Sample.host 1 [] true false Sample.echo) 0
    (Sample.configuration_of 0 [Sample.hello] true)
  /\ fst (try_item (Sample.host 1 [] true false Sample.echo) (lit "sk-1") 0 [])
     = inl (Error TypeError (lit "Cannot read properties")).
Proof.
  assert (H : configured (Sample.host 1 [] true false Sample.echo) 0
                (Sample.configuration_of 0 [Sample.hello] true))
    by (repeat split).
  split; [exact H|].
  rewrite (streamed_answer_must_be_text
             (Sample.host 1 [] true false Sample.echo) (lit "sk-1") 0 _ []
             (JObject [ (lit "model", JString (lit "m0")) ]) H).
  - reflexivity.
  - reflexivity.
  - discriminate.
  - reflexivity.
  - reflexivity.
  - intros text. discriminate.
Defined.

(* ================================================================== *)
(** * Further properties of the streamed response *)

(** The code units of a piece are code units of the text. *)
Lemma split_from_units (sep : jsstring) (s : jsstring) :
  forall skip cur piece u,
    In piece (split_from sep skip cur s) -> In u piece ->
    In u cur \/ In u s.
Proof.
  induction s as [|c s IH]; intros skip cur piece u Hp Hu; simpl in Hp.
  - destruct Hp as [<-|[]]. left; exact Hu.
  - destruct skip as [|k].
    + destruct (starts_with sep (c :: s)).
      * destruct Hp as [<-|Hp]; [left; exact Hu|].
        destruct (IH _ _ _ _ Hp Hu) as [[]|H]. right; right; exact H.
      * destruct (IH _ _ _ _ Hp Hu) as [H|H].
        -- apply in_app_or in H as [H|[<-|[]]];
             [left; exact H | right; left; reflexivity].
        -- right; right; exact H.
    + destruct (IH _ _ _ _ Hp Hu) as [H|H];
        [left; exact H | right; right; exact H].
Qed.

Lemma split_units (text sep piece : jsstring) (u : N) :
  sep <> [] -> In piece (split text sep) -> In u piece -> In u text.
Proof.
  intros Hs Hp Hu. destruct sep as [|x sep]; [congruence|].
  destruct (split_from_units _ _ _ _ _ _ Hp Hu) as [[]|H]. exact H.
Qed.

(** A text of white space has no chunk. *)
Lemma chunks_blank (text : jsstring) :
  forallb is_trim_space text = true -> chunks text = [].
Proof.
  intros H. unfold chunks.
  rewrite (filter_ext _ has_text) by (intros c; apply trim_not_empty).
  destruct (filter has_text (split text (LF ++ LF))) as [|c t] eqn:E;
    [reflexivity|].
  assert (Hc : In c (filter has_text (split text (LF ++ LF))))
    by (rewrite E; left; reflexivity).
  apply filter_In in Hc as [Hc Ht].
  unfold has_text in Ht. apply existsb_exists in Ht as (u & Hu & Hw).
  apply (split_units text (LF ++ LF) c u) in Hu;
    [|discriminate | exact Hc].
  rewrite forallb_forall in H. rewrite (H u Hu) in Hw. discriminate.
Qed.

(** X5. A streaming item answered by a text of white space only, the
    empty text among them, succeeds with an empty [streamedResponse]:
    [JSON.parse] is not called once. *)
Theorem blank_stream_gives_no_frame
    (this : Host) (apiKey : jsstring) (i : nat) (c : configuration)
    (log : list event) (text : jsstring) :
  configured this i c ->
  c_operation c = lit "chatCompletion" ->
  c_messages c <> [] ->
  c_stream c = true ->
  response_to this (log ++ parameter_reads i) (options_sent apiKey c)
  = inr (JString text) ->
  forallb is_trim_space text = true ->
  fst (try_item this apiKey i log)
  = inr {| json := JObject [ (lit "streamedResponse", JArray []) ];
           pairedItem := None |}.
Proof.
  intros H Hop Hm Hs Hr Hb.
  rewrite (try_item_request this apiKey i c log H Hop Hm). cbv zeta.
  rewrite Hr, Hs. unfold streamed. rewrite (chunks_blank text Hb).
  reflexivity.
Qed.

Lemma blank_stream_gives_no_frame_witness :
  configured (Sample.streaming (LF ++ LF ++ lit "  ")) 0
    (Sample.configuration_of 0 [Sample.hello] true)
  /\ forallb is_trim_space (LF ++ LF ++ lit "  ") = true
  /\ fst (try_item (Sample.streaming (LF ++ LF ++ lit "  ")) (lit "sk-1") 0 [])
     = inr {| json := JObject [ (lit "streamedResponse", JArray []) ];
              pairedItem := None |}.
Proof.
  assert (H : configured (Sample.streaming (LF ++ LF ++ lit "  ")) 0
                (Sample.configuration_of 0 [Sample.hello] true))
    by (repeat split).
  split; [exact H|]. split; [reflexivity|].
  apply (blank_stream_gives_no_frame
           (Sample.streaming (LF ++ LF ++ lit "  ")) (lit "sk-1") 0 _ []
           (LF ++ LF ++ lit "  ") H).
  - reflexivity.
  - discriminate.
  - reflexivity.
  - reflexivity.
  - reflexivity.
Defined.

(** ** No chunk holds a separator *)

Lemma app_tail_split {A} (a1 a2 cur : list A) (c : A) :
  a1 ++ a2 = cur ++ [c] -> a2 <> [] ->
  exists a2', a2 = a2' ++ [c] /\ cur = a1 ++ a2'.
Proof.
  intros E Hne.
  destruct (exists_last Hne) as (a2' & z & ->).
  rewrite app_assoc in E. apply app_inj_tail in E as [E ->].
  exists a2'. split; [reflexivity | symmetry; exact E].
Qed.

Lemma occurs_starts (sep a b rest : jsstring) :
  starts_with sep ((sep ++ b) ++ rest) = true.
Proof. rewrite <- app_assoc. apply starts_with_app. Qed.

Lemma split_from_no_separator (x : N) (sep' : jsstring) (s : jsstring) :
  forall skip cur,
    (skip = 0 ->
     forall a1 a2, cur = a1 ++ a2 -> a2 <> [] ->
                   starts_with (x :: sep') (a2 ++ s) = false) ->
    (skip <> 0 -> cur = []) ->
    Forall (fun piece => ~ occurs_in (x :: sep') piece)
           (split_from (x :: sep') skip cur s).
Proof.
  set (sep := x :: sep').
  assert (Hnil : ~ occurs_in sep []).
  { intros (a & b & E). destruct a; discriminate E. }
  assert (Hcur : forall cur rest,
             (forall a1 a2, cur = a1 ++ a2 -> a2 <> [] ->
                            starts_with sep (a2 ++ rest) = false) ->
             ~ occurs_in sep cur).
  { intros cur rest I (a & b & E).
    assert (Hne : sep ++ b <> []) by (subst sep; discriminate).
    pose proof (I a (sep ++ b) E Hne) as F.
    rewrite (occurs_starts sep a b rest) in F. discriminate. }
  induction s as [|c s IH]; intros skip cur I0 Ik; cbn [split_from].
  - constructor; [|constructor].
    destruct skip; [apply (Hcur cur []), I0; reflexivity|].
    rewrite Ik by discriminate. exact Hnil.
  - destruct skip as [|k].
    + specialize (I0 eq_refl).
      destruct (starts_with sep (c :: s)) eqn:E.
      * constructor; [apply (Hcur cur (c :: s)), I0|].
        apply IH; [|reflexivity].
        intros _ a1 a2 Ha Hne. destruct a1; destruct a2; try discriminate.
        congruence.
      * apply IH; [|congruence].
        intros _ a1 a2 Ha Hne.
        destruct (app_tail_split a1 a2 cur c (eq_sym Ha) Hne)
          as (a2' & -> & Hc).
        rewrite <- app_assoc. cbn [app].
        destruct a2' as [|y a2'].
        -- exact E.
        -- apply (I0 a1 (y :: a2') Hc). discriminate.
    + apply IH.
      * intros _ a1 a2 Ha Hne. rewrite Ik in Ha by discriminate.
        destruct a1; destruct a2; try discriminate. congruence.
      * intros _. apply Ik. discriminate.
Qed.

(** X6. Every chunk of a streamed text is one of the pieces that the
    blank lines cut it in, holds a code unit that is no white space, and
    has no blank line inside. *)
Theorem chunks_are_frames (text : jsstring) :
  Forall (fun chunk =>
            In chunk (split text (LF ++ LF))
            /\ has_text chunk = true
            /\ ~ occurs_in (LF ++ LF) chunk)
         (chunks text).
Proof.
  apply Forall_forall. intros chunk H. unfold chunks in H.
  apply filter_In in H as [Hs Ht]. rewrite trim_not_empty in Ht.
  split; [exact Hs|]. split; [exact Ht|].
  assert (F : Forall (fun piece => ~ occurs_in (LF ++ LF) piece)
                     (split text (LF ++ LF))).
  { apply (split_from_no_separator 10%N LF text 0 []).
    - intros _ a1 a2 Ha Hne. destruct a1; destruct a2; try discriminate.
      congruence.
    - congruence. }
  rewrite Forall_forall in F. apply F, Hs.
Qed.

(** ** The residual of a chunk *)

Lemma not_occurring (p s : jsstring) :
  ~ occurs_in p s ->
  forall s1 s2, s = s1 ++ s2 -> starts_with p s2 = false.
Proof.
  intros H s1 s2 ->. destruct (starts_with p s2) eqn:E; [|reflexivity].
  exfalso. apply H. exists s1, (skipn (length p) s2).
  rewrite <- (starts_with_split p s2 E). reflexivity.
Qed.

Lemma replace_shorter (p s : jsstring) :
  occurs_in p s -> length (replace s p []) + length p = length s.
Proof.
  induction s as [|c s IH]; intros (a & b & E).
  - destruct a; [|discriminate]. destruct p; [|discriminate]. reflexivity.
  - cbn [replace]. destruct (starts_with p (c :: s)) eqn:F.
    + pose proof (starts_with_length _ _ F).
      cbn [app]. rewrite length_skipn. lia.
    + destruct a as [|c' a].
      * cbn [app] in E. rewrite E, starts_with_app in F. discriminate.
      * inversion E; subst. cbn [length].
        rewrite <- (IH (ex_intro _ a (ex_intro _ b eq_refl))).
        lia.
Qed.

(** The first place at which a text holds [p]. *)
Lemma first_occurrence (p s : jsstring) :
  occurs_in p s ->
  exists a b,
    s = a ++ p ++ b
    /\ forall a1 a2, a = a1 ++ a2 -> a2 <> [] ->
                     starts_with p (a2 ++ p ++ b) = false.
Proof.
  induction s as [|c s IH]; intros (a & b & E).
  - destruct a; [|discriminate]. exists [], b. split; [exact E|].
    intros a1 a2 Ha Hne. destruct a1; destruct a2; try discriminate.
    congruence.
  - destruct (starts_with p (c :: s)) eqn:F.
    + exists [], (skipn (length p) (c :: s)).
      split; [exact (starts_with_split p (c :: s) F)|].
      intros a1 a2 Ha Hne. destruct a1; destruct a2; try discriminate.
      congruence.
    + destruct a as [|c' a].
      * cbn [app] in E. rewrite E, starts_with_app in F. discriminate.
      * inversion E; subst.
        destruct (IH (ex_intro _ a (ex_intro _ b eq_refl)))
          as (a' & b' & E' & N').
        exists (c' :: a'), b'. split; [rewrite E'; reflexivity|].
        intros a1 a2 Ha Hne. destruct a1 as [|x a1].
        -- cbn [app] in Ha. subst a2. cbn [app].
           rewrite <- E'. exact F.
        -- inversion Ha; subst. apply (N' a1 a2 eq_refl Hne).
Qed.

(** X7. The prefix is taken wherever it first stands, not only in front.
    A chunk in which [data: ] occurs is some [a ++ "data: " ++ b] with no
    [data: ] beginning inside [a], and its residual is [a ++ b]: what
    stood before the first [data: ] and what stood after it, the six
    code units between them gone. A chunk in which [data: ] does not
    occur is parsed as it is. *)
Theorem residual_drops_one_prefix (chunk : jsstring) :
  (occurs_in (lit "data: ") chunk ->
   exists a b,
     chunk = a ++ lit "data: " ++ b
     /\ (forall a1 a2, a = a1 ++ a2 -> a2 <> [] ->
                       starts_with (lit "data: ") (a2 ++ lit "data: " ++ b)
                       = false)
     /\ residual chunk = a ++ b
     /\ length (residual chunk) + 6 = length chunk)
  /\ (~ occurs_in (lit "data: ") chunk -> residual chunk = chunk).
Proof.
  split; intros H.
  - destruct (first_occurrence (lit "data: ") chunk H) as (a & b & E & N).
    exists a, b. split; [exact E|]. split; [exact N|]. split.
    + unfold residual. rewrite E.
      apply (replace_first (lit "data: ") [] a b N).
    + apply (replace_shorter (lit "data: ") chunk H).
  - apply replace_absent. apply not_occurring, H.
Qed.

Lemma residual_drops_one_prefix_witness :
  (occurs_in (lit "data: ") (lit "{data: data: 1}")
   /\ residual (lit "{data: data: 1}") = lit "{data: 1}")
  /\ (~ occurs_in (lit "data: ") (lit "[DONE]")
      /\ residual (lit "[DONE]") = lit "[DONE]").
Proof.
  assert (H1 : occurs_in (lit "data: ") (lit "{data: data: 1}"))
    by (exists (lit "{"), (lit "data: 1}"); reflexivity).
  assert (H2 : ~ occurs_in (lit "data: ") (lit "[DONE]")).
  { intros H. apply replace_shorter in H. vm_compute in H. discriminate. }
  split.
  - split; [exact H1|].
    destruct (proj1 (residual_drops_one_prefix (lit "{data: data: 1}")) H1)
      as (a & b & _ & _ & R & _).
    reflexivity.
  - split; [exact H2|].
    apply (proj2 (residual_drops_one_prefix (lit "[DONE]")) H2).
Defined.

(* ================================================================== *)
(** * Further properties of the batch *)

(** X8. When the credentials cannot be read, [execute] fails with the
    failure of that read, continue-on-fail or not: the read is outside
    the [try], so no item is started, no parameter read, no request
    sent and no error record made. *)
Theorem no_credentials_no_batch
    (this : Host) (e : thrown) (log : list event) :
  credentials_of this (lit "openRouterApi") = inl e ->
  execute this log
  = (inl e, log ++ [CredentialsRead (lit "openRouterApi")]).
Proof. apply execute_no_credentials. Qed.

Lemma no_credentials_no_batch_witness :
  continueOnFail (More.locked (Sample.three true)) = true
  /\ length (getInputData (More.locked (Sample.three true))) = 3
  /\ execute (More.locked (Sample.three true)) []
     = (inl (Error OtherError (lit "No credentials")),
        [CredentialsRead (lit "openRouterApi")]).
Proof.
  split; [reflexivity|]. split; [reflexivity|].
  apply (no_credentials_no_batch (More.locked (Sample.three true))).
  reflexivity.
Defined.

(** X9. A batch without items still reads the credentials, and then
    returns one empty list of records without any other call. *)
Theorem empty_batch
    (this : Host) (c : ICredentials) (log : list event) :
  getInputData this = [] ->
  credentials_of this (lit "openRouterApi") = inr c ->
  execute this log
  = (inr [[]], log ++ [CredentialsRead (lit "openRouterApi")]).
Proof.
  intros Hi Hc. rewrite (execute_loop this c log Hc), Hi. reflexivity.
Qed.

Lemma empty_batch_witness :
  getInputData (Sample.listing (inr JNull)) = []
  /\ execute (Sample.listing (inr JNull)) []
     = (inr [[]], [CredentialsRead (lit "openRouterApi")]).
Proof.
  split; [reflexivity|].
  apply (empty_batch (Sample.listing (inr JNull)) Sample.credentials);
    reflexivity.
Defined.

Lemma for_items_length (this : Host) (key : jsstring) (n : nat) :
  forall i returnData log records log',
    for_items this key n i returnData log = (inr records, log') ->
    length records = length returnData + n.
Proof.
  induction n as [|n IH]; intros i returnData log records log' H.
  - inversion H; subst. lia.
  - cbn [for_items] in H.
    destruct (try_item this key i log) as [[e|item] log1].
    + destruct (continueOnFail this); [|discriminate].
      apply IH in H. rewrite length_app in H. simpl in H. lia.
    + apply IH in H. rewrite length_app in H. simpl in H. lia.
Qed.

(** X10. On any host, whenever [execute] returns, it returns a single
    list, with exactly one record for each input item: a run never
    hands back the records of a part of the batch. *)
Theorem execute_returns_whole_batch
    (this : Host) (log : list event)
    (output : list (list INodeExecutionData)) :
  fst (execute this log) = inr output ->
  exists returnData,
    output = [returnData]
    /\ length returnData = length (getInputData this).
Proof.
  destruct (credentials_of this (lit "openRouterApi")) as [e|c] eqn:Hc.
  - rewrite (execute_no_credentials this e log Hc). discriminate.
  - rewrite (execute_loop this c log Hc).
    destruct (for_items _ _ _ _ _ _) as [[e|records] log'] eqn:E;
      [discriminate|].
    intros H. inversion H; subst. exists records.
    split; [reflexivity|]. apply for_items_length in E. exact E.
Qed.

Lemma execute_returns_whole_batch_witness :
  fst (execute (Sample.three true) [])
  = inr [[ Sample.success 0; error_item Sample.no_message 1;
           Sample.success 2 ]]
  /\ exists returnData,
       [[ Sample.success 0; error_item Sample.no_message 1;
          Sample.success 2 ]] = [returnData]
       /\ length returnData = length (getInputData (Sample.three true)).
Proof.
  split; [vm_compute; reflexivity|].
  apply (execute_returns_whole_batch (Sample.three true) []).
  vm_compute; reflexivity.
Defined.

(** ** Requests *)

Lemma requests_app (l1 l2 : list event) :
  requests (l1 ++ l2) = requests l1 + requests l2.
Proof. unfold requests. rewrite filter_app, length_app. reflexivity. Qed.

Lemma requests_reads (i j : nat) :
  requests (firstn j (parameter_reads i)) = 0.
Proof.
  unfold requests. rewrite (filter_firstn_none is_request); [reflexivity|].
  unfold parameter_reads. repeat constructor.
Qed.

(** An item that fails before its request adds none; any other item adds
    one. *)
Lemma try_item_requests (this : Host) (key : jsstring) (i : nat)
    (log : list event) :
  (requests (snd (try_item this key i log)) = requests log
   /\ exists e, fst (try_item this key i log) = inl e)
  \/ requests (snd (try_item this key i log)) = S (requests log).
Proof.
  destruct (try_item_shape this key i log)
    as [(e & j & _ & E)|(c & _ & _ & _ & E)].
  - left. rewrite E. cbn [fst snd]. split; [|exists e; reflexivity].
    rewrite requests_app, requests_reads. lia.
  - right. rewrite E, !requests_app.
    rewrite <- (firstn_all (parameter_reads i)), requests_reads.
    unfold requests. simpl. lia.
Qed.

Lemma for_items_requests (this : Host) (key : jsstring) (n : nat) :
  forall i returnData log,
    requests (snd (for_items this key n i returnData log))
    <= requests log + n.
Proof.
  induction n as [|n IH]; intros i returnData log; cbn [for_items].
  - simpl. lia.
  - assert (H1 : requests (snd (try_item this key i log))
                 <= S (requests log))
      by (destruct (try_item_requests this key i log) as [[H _]|H]; lia).
    destruct (try_item this key i log) as [[e|item] log1]; cbn [snd] in H1.
    + destruct (continueOnFail this).
      * specialize (IH (S i) (returnData ++ [error_item e i]) log1). lia.
      * cbn [snd]. lia.
    + specialize (IH (S i) (returnData ++ [item]) log1). lia.
Qed.

(** X11. No request is ever repeated: an item adds at most one request
    to the log, an item that gives a record adds exactly one, and a run
    of [execute] adds at most as many as the batch has items. *)
Theorem one_request_per_item (this : Host) (log : list event) :
  (forall apiKey i,
      requests (snd (try_item this apiKey i log)) <= requests log + 1)
  /\ (forall apiKey i item,
        fst (try_item this apiKey i log) = inr item ->
        requests (snd (try_item this apiKey i log)) = requests log + 1)
  /\ requests (snd (execute this log))
     <= requests log + length (getInputData this).
Proof.
  split; [|split].
  - intros key i.
    destruct (try_item_requests this key i log) as [[H _]|H]; lia.
  - intros key i item Hi.
    destruct (try_item_requests this key i log) as [[_ [e He]]|H];
      [congruence | lia].
  - destruct (credentials_of this (lit "openRouterApi")) as [e|c] eqn:Hc.
    + rewrite (execute_no_credentials this e log Hc). cbn [snd].
      rewrite requests_app. unfold requests at 2. simpl. lia.
    + rewrite (execute_loop this c log Hc).
      pose proof (for_items_requests this (apiKey c)
                    (length (getInputData this)) 0 []
                    (log ++ [CredentialsRead (lit "openRouterApi")])) as H.
      rewrite requests_app in H. unfold requests at 3 in H. simpl in H.
      destruct (for_items _ _ _ _ _ _) as [[e|records] log'];
        cbn [snd] in *; lia.
Qed.

Lemma one_request_per_item_witness :
  fst (try_item (Sample.three true) (lit "sk-1") 0 [])
  = inr (Sample.success 0)
  /\ requests (snd (try_item (Sample.three true) (lit "sk-1") 0 [])) = 0 + 1
  /\ requests (snd (execute (Sample.three true) [])) = 2.
Proof.
  split; [vm_compute; reflexivity|]. split; [|vm_compute; reflexivity].
  apply (proj1 (proj2 (one_request_per_item (Sample.three true) []))
           (lit "sk-1") 0 (Sample.success 0)).
  vm_compute; reflexivity.
Defined.

(** ** What is sent *)

Lemma options_sent_chat_request (apiKey : jsstring) (c : configuration) :
  chat_request apiKey (options_sent apiKey c).
Proof.
  unfold chat_request, options_sent. destruct c as [? ? ? ? ? ? ? ? stream].
  destruct stream; repeat split.
Qed.

Lemma Forall_firstn_of {A} (P : A -> Prop) (l : list A) (k : nat) :
  Forall P l -> Forall P (firstn k l).
Proof.
  intros H. revert k. induction H as [|x l Hx _ IH]; intros [|k]; simpl;
    constructor; auto.
Qed.

Lemma try_item_sends (this : Host) (key : jsstring) (i : nat)
    (log : list event) :
  exists events,
    snd (try_item this key i log) = log ++ events
    /\ Forall (fun e => forall options,
                 e = Requested options -> chat_request key options) events.
Proof.
  destruct (try_item_shape this key i log)
    as [(e & j & _ & E)|(c & _ & _ & _ & E)]; rewrite E.
  - exists (firstn j (parameter_reads i)). split; [reflexivity|].
    apply Forall_firstn_of. unfold parameter_reads.
    repeat (constructor; [intros options Ho; discriminate Ho|]).
    constructor.
  - exists (parameter_reads i ++ [Requested (options_sent key c)]).
    split; [reflexivity|].
    apply Forall_app. split.
    + unfold parameter_reads.
      repeat (constructor; [intros options Ho; discriminate Ho|]).
      constructor.
    + constructor; [|constructor].
      intros options Ho. inversion Ho; subst.
      apply options_sent_chat_request.
Qed.

(** The calls of the loop, when those of each item have a property. *)
Lemma for_items_calls (this : Host) (key : jsstring) (P : event -> Prop) :
  (forall i log, exists events,
      snd (try_item this key i log) = log ++ events /\ Forall P events) ->
  forall n i returnData log,
  exists events,
    snd (for_items this key n i returnData log) = log ++ events
    /\ Forall P events.
Proof.
  intros Hitem. induction n as [|n IH]; intros i returnData log.
  - exists []. simpl. rewrite app_nil_r. split; constructor.
  - cbn [for_items].
    destruct (Hitem i log) as (ev & E & F).
    destruct (try_item this key i log) as [[e|item] log1];
      simpl in E; subst log1.
    + destruct (continueOnFail this).
      * destruct (IH (S i) (returnData ++ [error_item e i]) (log ++ ev))
          as (ev2 & E2 & F2).
        exists (ev ++ ev2). rewrite E2, app_assoc.
        split; [reflexivity | apply Forall_app; split; assumption].
      * exists ev. split; [reflexivity | exact F].
    + destruct (IH (S i) (returnData ++ [item]) (log ++ ev))
        as (ev2 & E2 & F2).
      exists (ev ++ ev2). rewrite E2, app_assoc.
      split; [reflexivity | apply Forall_app; split; assumption].
Qed.

(** X12. Every request that a run of [execute] sends is a [POST] to the
    chat completions address, with the four headers of lines 274-279,
    the [Authorization] being [Bearer ] and the key of the one read of
    the credentials, with a payload of the eight fields, and with [json]
    off exactly when the payload asks for a stream. *)
Theorem every_request_is_a_chat_request
    (this : Host) (c : ICredentials) (log : list event) :
  credentials_of this (lit "openRouterApi") = inr c ->
  exists events,
    snd (execute this log)
    = log ++ CredentialsRead (lit "openRouterApi") :: events
    /\ Forall (fun e => forall options,
                 e = Requested options -> chat_request (apiKey c) options)
              events.
Proof.
  intros Hc. rewrite (execute_loop this c log Hc).
  destruct (for_items_calls this (apiKey c) _ (try_item_sends this (apiKey c))
              (length (getInputData this)) 0 []
              (log ++ [CredentialsRead (lit "openRouterApi")]))
    as (ev & E & F).
  exists ev. split; [|exact F].
  destruct (for_items _ _ _ _ _ _) as [[e|records] log'];
    cbn [snd] in *; rewrite E, <- app_assoc; reflexivity.
Qed.

Lemma every_request_is_a_chat_request_witness :
  credentials_of (Sample.three true) (lit "openRouterApi")
  = inr Sample.credentials
  /\ exists events,
       snd (execute (Sample.three true) [])
       = [] ++ CredentialsRead (lit "openRouterApi") :: events
       /\ Forall (fun e => forall options,
                    e = Requested options ->
                    chat_request (lit "sk-1") options)
                 events.
Proof.
  split; [reflexivity|].
  apply (every_request_is_a_chat_request (Sample.three true)
           Sample.credentials []).
  reflexivity.
Defined.

(** ** Which records are paired *)

Lemma try_item_unpaired (this : Host) (key : jsstring) (i : nat)
    (log : list event) (item : INodeExecutionData) :
  fst (try_item this key i log) = inr item -> pairedItem item = None.
Proof.
  destruct (read_all this i) as [[e j]|c] eqn:E.
  - rewrite (read_all_failed this key i j e log E). discriminate.
  - apply read_all_configured in E.
    destruct (str_eqb (c_operation c) (lit "chatCompletion")) eqn:Hop.
    + apply str_eqb_eq in Hop.
      destruct (c_messages c) as [|m ms] eqn:Hm.
      * rewrite (try_item_no_message this key i c log E Hop Hm).
        discriminate.
      * assert (Hne : c_messages c <> []) by (rewrite Hm; discriminate).
        rewrite (try_item_request this key i c log E Hop Hne). cbv zeta.
        destruct (response_to this _ _) as [e|response]; [discriminate|].
        destruct (c_stream c).
        -- destruct response; try discriminate.
           unfold streamed, bind.
           destruct (mapM _ _ _) as [[e|values] log'];
             [discriminate|].
           intros H; inversion H; reflexivity.
        -- intros H; inversion H; reflexivity.
    + apply str_eqb_neq in Hop.
      rewrite (try_item_unsupported this key i c log E Hop). discriminate.
Qed.

(** X13. With continue-on-fail on, the records tell the failed items
    from the others: the record of item [k] has [pairedItem] with the
    index [k] when the item failed, and no [pairedItem] at all when it
    gave a record of its own. *)
Theorem paired_item_marks_failures
    (this : Host) (log : list event) (c : ICredentials) :
  let log0 := log ++ [CredentialsRead (lit "openRouterApi")] in
  credentials_of this (lit "openRouterApi") = inr c ->
  continueOnFail this = true ->
  exists returnData,
    fst (execute this log) = inr [returnData]
    /\ forall k, k < length (getInputData this) ->
         exists record,
           nth_error returnData k = Some record
           /\ pairedItem record
              = match outcome this (apiKey c) log0 k with
                | inl _ => Some k
                | inr _ => None
                end.
Proof.
  intros log0 Hc Hcont.
  rewrite (execute_run this c log Hc) by (intros j _; left; exact Hcont).
  eexists. split; [reflexivity|].
  intros k Hk. eexists. split.
  - exact (nth_error_map_seq
             (fun j => settled j (outcome this (apiKey c) log0 j)) _ _ Hk).
  - cbv beta. destruct (outcome this (apiKey c) log0 k) as [e|item] eqn:E.
    + reflexivity.
    + apply (try_item_unpaired this (apiKey c) k
               (log_before this (apiKey c) log0 k)).
      exact E.
Qed.

Lemma paired_item_marks_failures_witness :
  credentials_of (Sample.three true) (lit "openRouterApi")
  = inr Sample.credentials
  /\ continueOnFail (Sample.three true) = true
  /\ exists returnData,
       fst (execute (Sample.three true) []) = inr [returnData]
       /\ map pairedItem returnData = [None; Some 1; None].
Proof.
  split; [reflexivity|]. split; [reflexivity|].
  destruct (paired_item_marks_failures (Sample.three true) []
              Sample.credentials eq_refl eq_refl) as (rs & E & _).
  exists rs. split; [exact E|].
  vm_compute in E. inversion E. reflexivity.
Defined.

(** ** The order of the calls *)






(* ================================================================== *)
(** * Further properties of the request options *)

Lemma own_property_overwrite_same (ps : list (jsstring * jsvalue))
    (key : jsstring) (v w : jsvalue) :
  own_property ps key = Some w ->
  own_property (overwrite ps key v) key = Some v.
Proof.
  induction ps as [|[k x] ps IH]; simpl; [discriminate|].
  destruct (str_eqb k key) eqn:E; simpl; rewrite E; [reflexivity | exact IH].
Qed.

Lemma own_property_overwrite_other (ps : list (jsstring * jsvalue))
    (key other : jsstring) (v : jsvalue) :
  other <> key ->
  own_property (overwrite ps key v) other = own_property ps other.
Proof.
  intros H. induction ps as [|[k x] ps IH]; simpl; [reflexivity|].
  destruct (str_eqb k key) eqn:E; simpl.
  - apply str_eqb_eq in E; subst k.
    assert (F : str_eqb key other = false)
      by (apply str_eqb_neq; congruence).
    rewrite F. reflexivity.
  - destruct (str_eqb k other); [reflexivity | exact IH].
Qed.

Lemma own_property_insert_same (ps : list (jsstring * jsvalue)) (n : N)
    (key : jsstring) (v : jsvalue) :
  own_property ps key = None ->
  own_property (insert_index ps n key v) key = Some v.
Proof.
  induction ps as [|[k x] ps IH]; simpl; intros H.
  - rewrite str_eqb_refl. reflexivity.
  - destruct (str_eqb k key) eqn:E; [discriminate|].
    destruct (array_index k) as [m|]; simpl.
    + destruct (N.ltb m n); simpl.
      * rewrite E. apply IH, H.
      * rewrite str_eqb_refl. reflexivity.
    + rewrite str_eqb_refl. reflexivity.
Qed.

Lemma own_property_insert_other (ps : list (jsstring * jsvalue)) (n : N)
    (key other : jsstring) (v : jsvalue) :
  other <> key ->
  own_property (insert_index ps n key v) other = own_property ps other.
Proof.
  intros H.
  assert (F : str_eqb key other = false) by (apply str_eqb_neq; congruence).
  induction ps as [|[k x] ps IH]; simpl.
  - rewrite F. reflexivity.
  - destruct (array_index k) as [m|]; simpl.
    + destruct (N.ltb m n); simpl.
      * destruct (str_eqb k other); [reflexivity | exact IH].
      * rewrite F. reflexivity.
    + rewrite F. reflexivity.
Qed.

Lemma own_property_app (ps qs : list (jsstring * jsvalue)) (key : jsstring) :
  own_property (ps ++ qs) key
  = match own_property ps key with
    | Some v => Some v
    | None => own_property qs key
    end.
Proof.
  induction ps as [|[k x] ps IH]; simpl; [reflexivity|].
  destruct (str_eqb k key); [reflexivity | exact IH].
Qed.

(** What is assigned is what is read back. *)
Lemma own_property_set_same (ps : list (jsstring * jsvalue))
    (key : jsstring) (v : jsvalue) :
  own_property (set_property ps key v) key = Some v.
Proof.
  unfold set_property. destruct (own_property ps key) as [w|] eqn:E.
  - apply (own_property_overwrite_same ps key v w E).
  - destruct (array_index key) as [n|].
    + apply own_property_insert_same, E.
    + rewrite own_property_app, E. simpl. rewrite str_eqb_refl. reflexivity.
Qed.

(** An assignment leaves the other properties alone. *)
Lemma own_property_set_other (ps : list (jsstring * jsvalue))
    (key other : jsstring) (v : jsvalue) :
  other <> key ->
  own_property (set_property ps key v) other = own_property ps other.
Proof.
  intros H. unfold set_property. destruct (own_property ps key) as [w|].
  - apply own_property_overwrite_other, H.
  - destruct (array_index key) as [n|].
    + apply own_property_insert_other, H.
    + rewrite own_property_app. destruct (own_property ps other);
        [reflexivity|].
      simpl. assert (F : str_eqb key other = false)
        by (apply str_eqb_neq; congruence).
      rewrite F. reflexivity.
Qed.

(** X15. Whatever options it is given, the streaming branch sets [json]
    to [false] and [encoding] to [utf8] and changes no other property:
    the method, the address, the headers and the payload of a streamed
    request are those of the request without streaming. *)
Theorem as_stream_sets_two_properties (options : IDataObject) :
  own_property (as_stream options) (lit "json") = Some (JBool false)
  /\ own_property (as_stream options) (lit "encoding")
     = Some (JString (lit "utf8"))
  /\ forall key,
       key <> lit "json" -> key <> lit "encoding" ->
       own_property (as_stream options) key = own_property options key.
Proof.
  unfold as_stream. split; [|split].
  - apply own_property_set_same.
  - rewrite own_property_set_other by (vm_compute; discriminate).
    apply own_property_set_same.
  - intros key Hj He.
    rewrite own_property_set_other by exact Hj.
    apply own_property_set_other, He.
Qed.

Lemma as_stream_sets_two_properties_witness :
  lit "body" <> lit "json"
  /\ lit "body" <> lit "encoding"
  /\ own_property
       (as_stream (requestOptions (lit "sk-1")
                     (payload (Sample.configuration_of 0 [Sample.hello] true))))
       (lit "body")
     = Some (payload (Sample.configuration_of 0 [Sample.hello] true)).
Proof.
  assert (H1 : lit "body" <> lit "json") by (vm_compute; discriminate).
  assert (H2 : lit "body" <> lit "encoding") by (vm_compute; discriminate).
  split; [exact H1|]. split; [exact H2|].
  rewrite (proj2 (proj2 (as_stream_sets_two_properties _)) (lit "body") H1 H2).
  reflexivity.
Defined.

(* ================================================================== *)
(** * Further properties of the model list *)

Section MoreModels.

Variable this : Host.

Lemma member_log (v : jsvalue) (key : jsstring) (log : list event) :
  snd (member this v key log) = log.
Proof. destruct v; reflexivity. Qed.

Lemma option_of_model_eq (model : jsvalue) (log : list event) :
  option_of_model this model log
  = (match model with
     | JUndefined | JNull =>
         inl (Error TypeError
                (engine_message this (BadMember model (lit "id"))))
     | _ => inr {| name := property model (lit "id");
                   value := property model (lit "id");
                   description := property model (lit "description") |}
     end, log).
Proof. destruct model; reflexivity. Qed.

Lemma mapM_option_log (models : list jsvalue) (log : list event) :
  snd (mapM (option_of_model this) models log) = log.
Proof.
  induction models as [|m ms IH]; [reflexivity|].
  cbn [mapM]. unfold bind at 1. rewrite option_of_model_eq.
  destruct m; try reflexivity; unfold bind at 1;
    destruct (mapM (option_of_model this) ms log) as [[e|os] log'];
    simpl in IH; subst; reflexivity.
Qed.

Lemma mapM_option_error (models : list jsvalue) (log : list event)
    (e : thrown) :
  fst (mapM (option_of_model this) models log) = inl e ->
  exists message, e = Error TypeError message.
Proof.
  induction models as [|m ms IH]; [discriminate|].
  cbn [mapM]. unfold bind at 1. rewrite option_of_model_eq.
  destruct m;
    try (intros H; inversion H; eexists; reflexivity);
    unfold bind at 1;
    destruct (mapM (option_of_model this) ms log) as [[e'|os] log'];
    simpl in IH |- *; intros H; inversion H; subst;
    apply IH; reflexivity.
Qed.

Lemma mapM_option_unreadable (before after : list jsvalue) (bad : jsvalue)
    (log : list event) :
  Forall readable before -> ~ readable bad ->
  mapM (option_of_model this) (before ++ bad :: after) log
  = (inl (Error TypeError (engine_message this (BadMember bad (lit "id")))),
     log).
Proof.
  intros Hb Hn. induction Hb as [|m before [Hu Hnull] _ IH].
  - cbn [app mapM]. unfold bind at 1. rewrite option_of_model_eq.
    destruct bad; try reflexivity; exfalso; apply Hn; split; discriminate.
  - cbn [app mapM]. unfold bind at 1. rewrite option_of_model_eq.
    destruct m; try congruence; unfold bind at 1; rewrite IH; reflexivity.
Qed.

End MoreModels.

(** X16. When the credentials cannot be read, [getModels] fails with the
    failure of that read as it is, not made into a [NodeOperationError]:
    the read is before the [try]. No request is sent. *)
Theorem models_need_credentials
    (this : Host) (e : thrown) (log : list event) :
  credentials_of this (lit "openRouterApi") = inl e ->
  getModels this log
  = (inl e, log ++ [CredentialsRead (lit "openRouterApi")]).
Proof.
  intros H. unfold getModels, bind at 1, getCredentials. rewrite H.
  reflexivity.
Qed.

Lemma models_need_credentials_witness :
  credentials_of (More.locked (Sample.listing (inr Sample.one_model)))
                 (lit "openRouterApi")
  = inl (Error OtherError (lit "No credentials"))
  /\ getModels (More.locked (Sample.listing (inr Sample.one_model))) []
     = (inl (Error OtherError (lit "No credentials")),
        [CredentialsRead (lit "openRouterApi")]).
Proof.
  split; [reflexivity|].
  apply (models_need_credentials
           (More.locked (Sample.listing (inr Sample.one_model)))).
  reflexivity.
Defined.

(** X17. One entry of the array that is [undefined] or [null] makes the
    whole list fail: [getModels] gives no option, not even those of the
    entries before it, and throws the [NodeOperationError] that the
    library makes of [Failed to load models from OpenRouter API: ] and
    the message of the [TypeError] of the first such entry. *)
Theorem unreadable_model_fails_list
    (this : Host) (log : list event) (c : ICredentials)
    (response bad : jsvalue) (before after : list jsvalue) :
  credentials_of this (lit "openRouterApi") = inr c ->
  response_to this (log ++ [CredentialsRead (lit "openRouterApi")])
              (models_requestOptions (apiKey c))
  = inr response ->
  property response (lit "data") = JArray (before ++ bad :: after) ->
  Forall readable before ->
  ~ readable bad ->
  getModels this log
  = (inl (NodeOperationError this (getNode this)
            (lit "Failed to load models from OpenRouter API: "
             ++ engine_message this (BadMember bad (lit "id")))),
     log ++ [ CredentialsRead (lit "openRouterApi");
              Requested (models_requestOptions (apiKey c)) ]).
Proof.
  intros Hc Hr Hd Hb Hn.
  rewrite (getModels_try this c log Hc). cbv zeta. rewrite Hr.
  destruct response; try discriminate Hd; rewrite Hd;
    rewrite (mapM_option_unreadable this _ _ _ _ Hb Hn), <- app_assoc;
    reflexivity.
Qed.

Lemma unreadable_model_fails_list_witness :
  property (JObject [ (lit "data",
                        JArray [ JObject [ (lit "id", JString (lit "m1")) ];
                                 JNull ]) ])
           (lit "data")
  = JArray ([ JObject [ (lit "id", JString (lit "m1")) ] ] ++ JNull :: [])
  /\ ~ readable JNull
  /\ fst (getModels
            (Sample.listing
               (inr (JObject
                       [ (lit "data",
                           JArray [ JObject [ (lit "id", JString (lit "m1")) ];
                                    JNull ]) ])))
            [])
     = inl (Error (NodeOperationErrorClass Sample.node)
              (lit "Failed to load models from OpenRouter API: "
               ++ lit "Cannot read properties")).
Proof.
  assert (Hn : ~ readable JNull) by (intros [_ H]; apply H; reflexivity).
  split; [reflexivity|]. split; [exact Hn|].
  rewrite (unreadable_model_fails_list _ [] Sample.credentials
             (JObject [ (lit "data",
                          JArray [ JObject [ (lit "id", JString (lit "m1")) ];
                                   JNull ]) ])
             JNull [ JObject [ (lit "id", JString (lit "m1")) ] ] []).
  - reflexivity.
  - reflexivity.
  - reflexivity.
  - reflexivity.
  - constructor; [split; discriminate | constructor].
  - exact Hn.
Defined.

(** The calls and the two ends of [getModels]. *)
Lemma getModels_ends
    (this : Host) (log : list event) (c : ICredentials) :
  credentials_of this (lit "openRouterApi") = inr c ->
  snd (getModels this log)
  = log ++ [ CredentialsRead (lit "openRouterApi");
             Requested (models_requestOptions (apiKey c)) ]
  /\ ((exists options, fst (getModels this log) = inr options)
      \/ exists message,
           fst (getModels this log)
           = inl (NodeOperationError this (getNode this)
                    (lit "Failed to load models from OpenRouter API: "
                     ++ message))).
Proof.
  intros Hc. rewrite (getModels_try this c log Hc). cbv zeta.
  rewrite <- app_assoc. cbn [app].
  destruct (response_to this _ _) as [[cls message|v]|response].
  - split; [reflexivity | right; eexists; reflexivity].
  - split; [reflexivity | right; exists (lit "Unknown error"); reflexivity].
  - destruct response;
      try (split; [reflexivity | right; eexists; reflexivity]);
      destruct (property _ _);
      try (split; [reflexivity | right; eexists; reflexivity]);
      match goal with
      | |- context [mapM ?f ?ms ?l] =>
          pose proof (mapM_option_log this ms l) as L;
          destruct (mapM f ms l) as [[[cls message|v]|options] log'];
          simpl in L; subst log'
      end;
      (split;
       [reflexivity
       | first [ left; eexists; reflexivity
               | right; exists (lit "Unknown error"); reflexivity
               | right; eexists; reflexivity ]]).
Qed.

(** X18. Once the credentials are read, [getModels] sends exactly one
    request, whatever the answer: the read of the credentials and that
    request are all its log holds. It ends in one of two ways only: with
    a list of options, or with the [NodeOperationError] that the library
    makes, for the node, of a text that starts with
    [Failed to load models from OpenRouter API: ]. *)
Theorem models_one_request_two_ends
    (this : Host) (log : list event) (c : ICredentials) :
  credentials_of this (lit "openRouterApi") = inr c ->
  snd (getModels this log)
  = log ++ [ CredentialsRead (lit "openRouterApi");
             Requested (models_requestOptions (apiKey c)) ]
  /\ ((exists options, fst (getModels this log) = inr options)
      \/ exists message,
           fst (getModels this log)
           = inl (NodeOperationError this (getNode this)
                    (lit "Failed to load models from OpenRouter API: "
                     ++ message))).
Proof. apply getModels_ends. Qed.

Lemma models_one_request_two_ends_witness :
  credentials_of (Sample.listing (inl More.refused)) (lit "openRouterApi")
  = inr Sample.credentials
  /\ snd (getModels (Sample.listing (inl More.refused)) [])
     = [ CredentialsRead (lit "openRouterApi");
         Requested (models_requestOptions (lit "sk-1")) ]
  /\ fst (getModels (Sample.listing (inl More.refused)) [])
     = inl (NodeOperationError (Sample.listing (inl More.refused)) Sample.node
              (lit "Failed to load models from OpenRouter API: "
               ++ lit "connect ECONNREFUSED")).
Proof.
  split; [reflexivity|].
  destruct (models_one_request_two_ends (Sample.listing (inl More.refused))
              [] Sample.credentials eq_refl) as (L & _).
  split; [exact L | vm_compute; reflexivity].
Defined.

(* ================================================================== *)
(** * The description and the code *)

(** X19. The code reads what the description declares. The nine
    parameters that an item reads are, in the same order, the nine
    declared properties, the path [messages.messagesValues] leading to
    the option [messagesValues] of the collection [messages]; and the
    one credential type that the description lists is the type that
    [execute] and [getModels] read first. *)
Theorem reads_are_declared :
  (forall i,
      map (fun path => JString (Schema.root path)) (Schema.read_names i)
      = map (fun p => property p (lit "name")) Schema.properties
      /\ forallb Schema.resolves (Schema.read_names i) = true)
  /\ exists type,
       map (fun c => property c (lit "name"))
           (Schema.elements
              (property Schema.description (lit "credentials")))
       = [JString type]
       /\ forall this log,
            (exists rest,
                snd (execute this log) = log ++ CredentialsRead type :: rest)
            /\ (exists rest,
                  snd (getModels this log)
                  = log ++ CredentialsRead type :: rest).
Proof.
  split; [intros i; split; vm_compute; reflexivity|].
  exists (lit "openRouterApi"). split; [vm_compute; reflexivity|].
  intros this log.
  destruct (credentials_of this (lit "openRouterApi")) as [e|c] eqn:Hc.
  - split; exists [].
    + rewrite (execute_no_credentials this e log Hc). reflexivity.
    + unfold getModels, bind at 1, getCredentials. rewrite Hc. reflexivity.
  - split.
    + rewrite (execute_loop this c log Hc).
      destruct (for_items_log this (apiKey c) (length (getInputData this))
                  0 [] (log ++ [CredentialsRead (lit "openRouterApi")]))
        as (ev & E & _).
      exists ev.
      destruct (for_items _ _ _ _ _ _) as [[e|records] log'];
        cbn [snd] in *; rewrite E, <- app_assoc; reflexivity.
    + destruct (getModels_ends this log c Hc) as (L & _).
      rewrite L. eexists. reflexivity.
Qed.

(** X20. The defaults of the description are valid ones: the default of
    every [number] property lies within its own bounds, the default of
    every property with listed options is one of them, and an item left
    at the default operation and the default messages passes both
    checks and sends its request, with the one message
    [{role: "user", content: ""}]. *)
Theorem defaults_are_valid :
  forallb Schema.default_valid Schema.properties = true
  /\ forall (this : Host) (apiKey : jsstring) (i : nat) (c : configuration)
            (log : list event),
       configured this i c ->
       JString (c_operation c) = Schema.default_of (lit "operation") ->
       JArray (map JObject (c_messages c))
       = property (Schema.default_of (lit "messages")) (lit "messagesValues") ->
       snd (try_item this apiKey i log)
       = log ++ parameter_reads i ++ [Requested (options_sent apiKey c)]
       /\ property (payload c) (lit "messages")
          = JArray [ JObject [ (lit "role", JString (lit "user"));
                               (lit "content", JString []) ] ].
Proof.
  split; [vm_compute; reflexivity|].
  intros this apiKey i c log H Hop Hm.
  assert (D0 : Schema.default_of (lit "operation")
               = JString (lit "chatCompletion"))
    by (vm_compute; reflexivity).
  rewrite D0 in Hop. injection Hop as Hop.
  assert (Hmsg : c_messages c
                 = [ [ (lit "role", JString (lit "user"));
                       (lit "content", JString []) ] ]).
  { assert (D : property (Schema.default_of (lit "messages"))
                         (lit "messagesValues")
                = JArray [ JObject [ (lit "role", JString (lit "user"));
                                     (lit "content", JString []) ] ])
      by (vm_compute; reflexivity).
    rewrite D in Hm. injection Hm as Hm.
    destruct (c_messages c) as [|m [|m' ms]]; simpl in Hm;
      try discriminate Hm.
    injection Hm as Hm. rewrite Hm. reflexivity. }
  split.
  - apply (try_item_request_log this apiKey i c log H).
    + exact Hop.
    + rewrite Hmsg. discriminate.
  - rewrite payload_messages, Hmsg. reflexivity.
Qed.

Lemma defaults_are_valid_witness :
  configured More.defaults 0 More.default_configuration
  /\ JString (c_operation More.default_configuration)
     = Schema.default_of (lit "operation")
  /\ JArray (map JObject (c_messages More.default_configuration))
     = property (Schema.default_of (lit "messages")) (lit "messagesValues")
  /\ snd (try_item More.defaults (lit "sk-1") 0 [])
     = parameter_reads 0
       ++ [Requested (options_sent (lit "sk-1") More.default_configuration)].
Proof.
  assert (H : configured More.defaults 0 More.default_configuration)
    by (repeat split).
  split; [exact H|]. split; [reflexivity|]. split; [reflexivity|].
  apply (proj2 defaults_are_valid More.defaults (lit "sk-1") 0 _ [] H);
    reflexivity.
Defined.
